(** * A shallow embedding of the sharded concurrent map [hmap] (src/hmap.go).

    A [Map] is a fixed list of shards, each a string-keyed Go map, plus
    the per-instance hash seed.  The shard locks ([sync.RWMutex]) are not
    modelled: every operation is evaluated sequentially.  Operations are
    written in a small state monad with failure: [None] stands for a Go
    runtime panic (an out-of-range slice index). *)

From Stdlib Require Import ZArith Lia.
From stdpp Require Import base gmap list strings.

Open Scope Z_scope.

(** ** Go integer conversions *)

(** [uint64(x)]: reduction modulo 2^64. *)
Definition to_uint64 (z : Z) : Z := z mod 2 ^ 64.

(** [int(x)] for a [uint64] value [x]: two's-complement reinterpretation on
    a 64-bit platform. *)
Definition to_int (z : Z) : Z := if z <? 2 ^ 63 then z else z - 2 ^ 64.

(** ** Shard count (hmap.go lines 9-41) *)

Definition defaultShardCount : Z := Z.shiftl 1 6.

Definition trueShards (shardCount : Z) : Z :=
  if shardCount <? 1 then 1
  else if Z.shiftl 1 16 <? shardCount then Z.shiftl 1 16
  else
    let n := shardCount - 1 in
    let n := Z.lor n (Z.shiftr n 1) in
    let n := Z.lor n (Z.shiftr n 2) in
    let n := Z.lor n (Z.shiftr n 4) in
    let n := Z.lor n (Z.shiftr n 8) in
    let n := Z.lor n (Z.shiftr n 16) in
    n + 1.

Section HMap.

(** [V] is the value type parameter, [zero] its Go zero value.  [Seed] is
    [maphash.Seed] and [maphash_String seed key] the 64-bit digest of
    [maphash.String]. *)
Context {V : Type} (zero : V).
Context {Seed : Type} (maphash_String : Seed -> string -> Z).

(** [Map[V]]: [datas] holds the shards' dictionaries (the [mapItem]
    pointers, whose mutexes are not modelled). *)
Record Map := mkMap {
  datas : list (gmap string V);
  seed : Seed
}.

(** State monad with panics. *)
Definition M (R : Type) : Type := Map -> option (R * Map).

(** [New(inShardCount ...int)]: the seed comes from [maphash.MakeSeed]. *)
Definition New (seed0 : Seed) (inShardCount : list Z) : Map :=
  let shardCount :=
    match inShardCount with
    | [] => defaultShardCount
    | n :: _ => trueShards n
    end in
  mkMap (replicate (Z.to_nat shardCount) ∅) seed0.

Definition getIndex (m : Map) (key : string) : Z :=
  let hash := to_uint64 (maphash_String (seed m) key) in
  to_int (Z.land hash (to_uint64 (Z.of_nat (length (datas m)) - 1))).

(** [m.datas[index]]: panics when the index is out of range. *)
Definition shard_at (m : Map) (index : Z) : option (gmap string V) :=
  if index <? 0 then None else datas m !! Z.to_nat index.

(** Replace the dictionary of shard [index] (the shard is a pointer, so
    the update is seen by every later access). *)
Definition with_shard (m : Map) (index : Z) (d : gmap string V) : Map :=
  mkMap (<[Z.to_nat index := d]> (datas m)) (seed m).

Definition Set_ (key : string) (value : V) : M unit := fun m =>
  let index := getIndex m key in
  d ← shard_at m index;
  Some (tt, with_shard m index (<[key := value]> d)).

Definition SetWithNotExist (key : string) (value : V) : M (V * bool) := fun m =>
  let index := getIndex m key in
  d ← shard_at m index;
  match d !! key with
  | Some val => Some ((val, false), m)
  | None => Some ((value, true), with_shard m index (<[key := value]> d))
  end.

Definition Get (key : string) : M (V * bool) := fun m =>
  let index := getIndex m key in
  d ← shard_at m index;
  match d !! key with
  | Some value => Some ((value, true), m)
  | None => Some ((zero, false), m)
  end.

Definition GetWithDefault (key : string) (defaultValue : V) : M (V * bool) := fun m =>
  let index := getIndex m key in
  d ← shard_at m index;
  match d !! key with
  | Some value => Some ((value, true), m)
  | None => Some ((defaultValue, false), m)
  end.

Definition Delete (key : string) : M bool := fun m =>
  let index := getIndex m key in
  d ← shard_at m index;
  match d !! key with
  | None => Some (false, m)
  | Some _ => Some (true, with_shard m index (delete key d))
  end.

Definition DeleteIf (key : string) (delIf : V -> bool) : M bool := fun m =>
  let index := getIndex m key in
  d ← shard_at m index;
  match d !! key with
  | None => Some (false, m)
  | Some val =>
      if negb (delIf val) then Some (false, m)
      else Some (true, with_shard m index (delete key d))
  end.

Definition Len : M Z := fun m =>
  Some (fold_left (fun count d => count + Z.of_nat (size d)) (datas m) 0, m).

(** [LenWithSlice()]: the per-shard sizes, appended in shard order. *)
Definition LenWithSlice : M (list Z) := fun m =>
  Some (fold_left (fun counts d => counts ++ [Z.of_nat (size d)]) (datas m) [], m).

Definition Clear : M unit := fun m =>
  Some (tt, mkMap (map (fun _ => ∅) (datas m)) (seed m)).

Definition ShardCount : M Z := fun m =>
  Some (Z.of_nat (length (datas m)), m).

(** ** Whole-map iterations (hmap.go lines 170-217)

    [range_order i d] is the order in which Go's [for key, value := range]
    visits the entries of dictionary [d] of shard [i]; the language leaves
    it unspecified, so it is a parameter here. *)
Context (range_order : nat -> gmap string V -> list (string * V)).

(** The loop over [tmpMaps] of one shard: the pairs passed to [f], and
    whether iteration continues. *)
Fixpoint range_tmp (f : string -> V -> bool) (es : list (string * V))
  : list (string * V) * bool :=
  match es with
  | [] => ([], true)
  | (key, value) :: es' =>
      if negb (f key value) then ([(key, value)], false)
      else let '(calls, cont) := range_tmp f es' in ((key, value) :: calls, cont)
  end.

(** The loop over the shards; [tmpMaps] is a copy of the shard taken under
    its read lock, equal to the shard's dictionary. *)
Fixpoint range_shards (f : string -> V -> bool) (i : nat)
    (ds : list (gmap string V)) : list (string * V) :=
  match ds with
  | [] => []
  | d :: ds' =>
      let tmpMaps := d in
      let '(calls, cont) := range_tmp f (range_order i tmpMaps) in
      if cont then calls ++ range_shards f (S i) ds' else calls
  end.

(** [Range(f)]; the result is the list of the calls made to [f]. *)
Definition Range (f : string -> V -> bool) : M (list (string * V)) := fun m =>
  Some (range_shards f 0 (datas m), m).

Context {E : Type}.

(** The loop of [Prune] over the live dictionary [d] of one shard, visiting
    [es]; returns the dictionary, the counters, the error and the calls
    made to [f]. *)
Fixpoint prune_shard (f : string -> V -> bool * option E)
    (es : list (string * V)) (d : gmap string V) (delNum nowNum : Z)
  : gmap string V * Z * Z * option E * list (string * V) :=
  match es with
  | [] => (d, delNum, nowNum, None, [])
  | (key, value) :: es' =>
      let '(ok, err) := f key value in
      match err with
      | Some e => (d, delNum, nowNum, Some e, [(key, value)])
      | None =>
          let '(d', dn, nn, r, calls) :=
            if ok then prune_shard f es' (delete key d) (delNum + 1) nowNum
            else prune_shard f es' d delNum (nowNum + 1) in
          (d', dn, nn, r, (key, value) :: calls)
      end
  end.

Fixpoint prune_loop (f : string -> V -> bool * option E) (i : nat)
    (ds : list (gmap string V)) (delNum nowNum : Z)
  : list (gmap string V) * Z * Z * option E * list (string * V) :=
  match ds with
  | [] => ([], delNum, nowNum, None, [])
  | d :: ds' =>
      let '(d', dn, nn, err, calls) := prune_shard f (range_order i d) d delNum nowNum in
      match err with
      | Some e => (d' :: ds', dn, nn, Some e, calls)
      | None =>
          let '(ds'', dn', nn', r, calls') := prune_loop f (S i) ds' dn nn in
          (d' :: ds'', dn', nn', r, calls ++ calls')
      end
  end.

(** [Prune(f)]: the Go results [(delNum, nowNum, err)] and the calls made
    to [f]. *)
Definition Prune (f : string -> V -> bool * option E)
  : M ((Z * Z * option E) * list (string * V)) := fun m =>
  let '(ds, dn, nn, r, calls) := prune_loop f 0 (datas m) 0 0 in
  Some ((dn, nn, r, calls), mkMap ds (seed m)).

End HMap.

Arguments Map : clear implicits.
Arguments mkMap {V Seed}.
Arguments datas {V Seed}.
Arguments seed {V Seed}.

Section Ops.

Context {V : Type} {Seed : Type} (maphash_String : Seed -> string -> Z).

(** Sequences of mutating calls, for stating what holds "until the next
    mutation" of a key. *)
Inductive op :=
| OSet (key : string) (value : V)
| OSetWithNotExist (key : string) (value : V)
| ODelete (key : string)
| ODeleteIf (key : string) (delIf : V -> bool)
| OClear.

Definition step (o : op) : M unit := fun m =>
  match o with
  | OSet k v => Set_ maphash_String k v m
  | OSetWithNotExist k v =>
      '(_, m') ← SetWithNotExist maphash_String k v m; Some (tt, m')
  | ODelete k => '(_, m') ← Delete maphash_String k m; Some (tt, m')
  | ODeleteIf k p => '(_, m') ← DeleteIf maphash_String k p m; Some (tt, m')
  | OClear => Clear m
  end.

Fixpoint run (os : list op) : M unit := fun m =>
  match os with
  | [] => Some (tt, m)
  | o :: os' => '(_, m') ← step o m; run os' m'
  end.

(** Whether a call may change the entry of [k]. *)
Definition mutates (k : string) (o : op) : bool :=
  match o with
  | OSet k' _ | OSetWithNotExist k' _ | ODelete k' | ODeleteIf k' _ =>
      bool_decide (k' = k)
  | OClear => true
  end.

(** The invariant of the data model (spec section 3): the shard count is a
    power of two in [1, 65536]. *)
Definition wf (m : Map V Seed) : Prop :=
  exists p : Z, Z.of_nat (length (datas m)) = 2 ^ p /\ 0 <= p <= 16.

(** The entry of [k] in the shard [k] is routed to. *)
Definition find (m : Map V Seed) (k : string) : option V :=
  match shard_at m (getIndex maphash_String m k) with
  | Some d => d !! k
  | None => None
  end.

(** Every entry of every shard, shard by shard. *)
Definition all_entries (m : Map V Seed) : list (string * V) :=
  concat (map map_to_list (datas m)).

(** The order in which a whole-map loop starting at shard [i] visits the
    entries of the shards [ds]: shard by shard, each in [range_order]. *)
Fixpoint visit_order (range_order : nat -> gmap string V -> list (string * V))
    (i : nat) (ds : list (gmap string V)) : list (string * V) :=
  match ds with
  | [] => []
  | d :: ds' => range_order i d ++ visit_order range_order (S i) ds'
  end.

(** Whether the [Prune] callback [f] asks to delete an entry, and whether it
    returns a non-nil error on it. *)
Definition deletes {E : Type} (f : string -> V -> bool * option E)
    (kv : string * V) : bool :=
  fst (f kv.1 kv.2).

Definition fails {E : Type} (f : string -> V -> bool * option E)
    (kv : string * V) : bool :=
  match snd (f kv.1 kv.2) with Some _ => true | None => false end.


(** Every entry sits in the shard its key is routed to. *)
Definition routed (m : Map V Seed) : Prop :=
  forall i d k v, datas m !! i = Some d -> d !! k = Some v ->
    getIndex maphash_String m k = Z.of_nat i.

End Ops.

(** ** The earlier version of the package (src/unnamed/part_000)

    Same [Map] layout ([maps] is [datas]); [getIndex] hashes with a pooled
    [maphash.Hash] reset to the map's seed, whose [Sum64] after
    [WriteString(key)] is the digest [maphash.String(seed, key)].  Its
    [trueShards], [Delete], [Len], [Clear], [Range] and [ShardCount] are
    the current version's code over [maps], embedded above. *)
Module Old.
Section Old.

Context {V : Type} (zero : V) {Seed : Type} (maphash_String : Seed -> string -> Z).

Definition defaultShardCount : Z := Z.shiftl 1 5.

Definition New (seed0 : Seed) (inShardCount : list Z) : Map V Seed :=
  let shardCount :=
    match inShardCount with
    | [] => defaultShardCount
    | n :: _ => trueShards n
    end in
  mkMap (replicate (Z.to_nat shardCount) ∅) seed0.

Definition getIndex (m : Map V Seed) (key : string) : Z :=
  let h := to_uint64 (maphash_String (seed m) key) in
  to_int (Z.land h (to_uint64 (Z.of_nat (length (datas m)) - 1))).

(** [Set(key, value, onlyIfNotExist ...bool) V]: with the flag, a check
    under the read lock, then a second check under the write lock. *)
Definition Set_ (key : string) (value : V) (onlyIfNotExist : list bool) : @M V Seed V :=
  fun m =>
  let ifNotExist := match onlyIfNotExist with [] => false | b :: _ => b end in
  let index := getIndex m key in
  let write (_ : unit) : option (V * Map V Seed) :=
    d ← shard_at m index;
    if ifNotExist then
      match d !! key with
      | Some val => Some (val, m)
      | None => Some (value, with_shard m index (<[key := value]> d))
      end
    else Some (value, with_shard m index (<[key := value]> d)) in
  if ifNotExist then
    d ← shard_at m index;
    match d !! key with
    | Some val => Some (val, m)
    | None => write tt
    end
  else write tt.

(** [Get(key, defaultValue ...V)]. *)
Definition Get (key : string) (defaultValue : list V) : @M V Seed (V * bool) := fun m =>
  let index := getIndex m key in
  d ← shard_at m index;
  match d !! key with
  | Some value => Some ((value, true), m)
  | None =>
      match defaultValue with
      | [] => Some ((zero, false), m)
      | dv :: _ => Some ((dv, false), m)
      end
  end.

(** [GetMaps(index)]: a copy of one shard, or [nil] ([None]) out of range. *)
Definition GetMaps (index : Z) : @M V Seed (option (gmap string V)) := fun m =>
  if (index <? 0) || (Z.of_nat (length (datas m)) <=? index) then Some (None, m)
  else d ← shard_at m index; Some (Some d, m).

(** [GetAllMaps()]: [maps.Copy] of every shard, in order, into one map. *)
Definition GetAllMaps : @M V Seed (gmap string V) := fun m =>
  Some (fold_left (fun re d => d ∪ re) (datas m) ∅, m).

End Old.
End Old.

Arguments op V : clear implicits.

(** * Concrete instances

    A seed-independent digest (the sum of the key's bytes), Go's visiting
    order taken as [map_to_list], and the map of the spec's [Prune] example,
    {a:1, b:5, c:10, d:15}, built by [New()] and four [Set] calls. *)

Fixpoint byte_sum (s : string) : Z :=
  match s with
  | EmptyString => 0
  | String c s' => Z.of_nat (Ascii.nat_of_ascii c) + byte_sum s'
  end.

Definition demo_hash (_ : unit) (key : string) : Z := byte_sum key.

Definition demo_order (_ : nat) (d : gmap string Z) : list (string * Z) :=
  map_to_list d.

Definition demo_map : Map Z unit :=
  match run demo_hash
          [OSet "a"%string 1; OSet "b"%string 5; OSet "c"%string 10; OSet "d"%string 15]
          (New tt []) with
  | Some (_, m) => m
  | None => New tt []
  end.

(** [Prune] callbacks: delete the values below 10; the same, but fail with
    an error on key "c". *)
Definition below10 (_ : string) (v : Z) : bool * option string := (v <? 10, None).

Definition below10_fail_c (k : string) (v : Z) : bool * option string :=
  if String.eqb k "c" then (false, Some "boom"%string) else (v <? 10, None).

(** * Shard count *)

(** One step [n |= n >> w] of the rounding in [trueShards]: if the bits
    of [x] above [L] are clear and the [w] bits ending at [L] are set, the
    step keeps the high bits clear and sets [2w] bits ending at [L]. *)
Definition smeared (L w x : Z) : Prop :=
  0 <= x /\
  (forall i, L < i -> Z.testbit x i = false) /\
  (forall i, 0 <= i -> L - w < i <= L -> Z.testbit x i = true).

Lemma smear_step (L w x : Z) :
  0 <= w -> smeared L w x -> smeared L (2 * w) (Z.lor x (Z.shiftr x w)).
Proof.
  intros Hw (Hx & Hhi & Hlo). split; [|split].
  - apply Z.lor_nonneg. split; [exact Hx|]. now apply Z.shiftr_nonneg.
  - intros i Hi. destruct (Z_lt_le_dec i 0) as [Hneg|Hnn];
      [now apply Z.testbit_neg_r|].
    rewrite Z.lor_spec, Z.shiftr_spec by lia.
    rewrite !Hhi by lia. reflexivity.
  - intros i Hi Hr. rewrite Z.lor_spec, Z.shiftr_spec by lia.
    destruct (Z_lt_le_dec (L - w) i) as [Hin|Hout].
    + rewrite Hlo by lia. reflexivity.
    + rewrite (Hlo (i + w)) by lia. apply orb_true_r.
Qed.

Lemma smeared_ones (L w x : Z) :
  0 <= L -> L < w -> smeared L w x -> x = Z.ones (L + 1).
Proof.
  intros HL Hw (Hx & Hhi & Hlo). apply Z.bits_inj'. intros i Hi.
  rewrite Z.testbit_ones by lia.
  destruct (Z_le_gt_dec i L) as [Hle|Hgt].
  - rewrite Hlo by lia. symmetry. apply andb_true_iff. split; lia.
  - rewrite Hhi by lia. symmetry. apply andb_false_iff. right. lia.
Qed.

Lemma trueShards_in_range (n : Z) :
  1 <= n <= 65536 -> trueShards n = 2 ^ Z.log2_up n.
Proof.
  intros Hn. unfold trueShards.
  replace (n <? 1) with false by lia.
  change (Z.shiftl 1 16) with 65536.
  replace (65536 <? n) with false by lia.
  destruct (Z.eq_dec n 1) as [->|Hne]; [reflexivity|].
  cbv zeta.
  set (L := Z.log2 (n - 1)).
  assert (HL : 0 <= L) by apply Z.log2_nonneg.
  assert (HL16 : L < 16).
  { apply Z.log2_lt_pow2; [lia|]. cbn. lia. }
  assert (H1 : smeared L 1 (n - 1)).
  { split; [lia|split].
    - intros i Hi. apply Z.bits_above_log2; [lia|exact Hi].
    - intros i _ Hi. replace i with L by lia. apply Z.bit_log2. lia. }
  pose proof (smear_step L 1 _ ltac:(lia) H1) as H2.
  pose proof (smear_step L 2 _ ltac:(lia) H2) as H4.
  pose proof (smear_step L 4 _ ltac:(lia) H4) as H8.
  pose proof (smear_step L 8 _ ltac:(lia) H8) as H16.
  pose proof (smear_step L 16 _ ltac:(lia) H16) as H32.
  rewrite (smeared_ones L (2 * 16) _ HL ltac:(lia) H32).
  rewrite Z.ones_equiv, Z.log2_up_eqn by lia.
  replace (Z.pred n) with (n - 1) by lia. fold L. rewrite Z.add_1_r. lia.
Qed.

Lemma trueShards_cases (n : Z) :
  (n <= 0 -> trueShards n = 1) /\
  (65536 < n -> trueShards n = 65536) /\
  (1 <= n <= 65536 -> trueShards n = 2 ^ Z.log2_up n).
Proof.
  split; [|split].
  - intros H. unfold trueShards. now replace (n <? 1) with true by lia.
  - intros H. unfold trueShards.
    replace (n <? 1) with false by lia.
    change (Z.shiftl 1 16) with 65536.
    now replace (65536 <? n) with true by lia.
  - apply trueShards_in_range.
Qed.

Lemma trueShards_pow2 (n : Z) :
  exists p, trueShards n = 2 ^ p /\ 0 <= p <= 16.
Proof.
  destruct (trueShards_cases n) as (H1 & H2 & H3).
  destruct (Z_le_gt_dec n 0) as [Hn|Hn]; [exists 0; rewrite H1 by lia; split; [reflexivity|lia]|].
  destruct (Z_le_gt_dec n 65536) as [Hm|Hm]; [|exists 16; rewrite H2 by lia; split; [reflexivity|lia]].
  exists (Z.log2_up n). rewrite H3 by lia. split; [reflexivity|].
  split; [apply Z.log2_up_nonneg|].
  change 65536 with (2 ^ 16) in Hm.
  rewrite <- (Z.log2_up_pow2 16) by lia. now apply Z.log2_up_le_mono.
Qed.

Section Routing.

Context {V : Type} {Seed : Type} (maphash_String : Seed -> string -> Z).

Lemma New_length (s : Seed) (hint : list Z) :
  exists p, Z.of_nat (length (datas (@New V Seed s hint))) = 2 ^ p /\ 0 <= p <= 16.
Proof.
  unfold New; simpl. rewrite length_replicate.
  destruct hint as [|n hint].
  - exists 6. split; [reflexivity|lia].
  - destruct (trueShards_pow2 n) as (p & Hp & Hb). exists p.
    rewrite Hp, Z2Nat.id by lia. split; [reflexivity|lia].
Qed.

Lemma New_wf (s : Seed) (hint : list Z) : wf (@New V Seed s hint).
Proof. apply New_length. Qed.

Lemma getIndex_bound (m : Map V Seed) (key : string) :
  wf m -> 0 <= getIndex maphash_String m key < Z.of_nat (length (datas m)).
Proof.
  intros (p & Hlen & Hp). unfold getIndex. rewrite Hlen.
  assert (Hpow : 2 ^ p <= 2 ^ 16) by (apply Z.pow_le_mono_r; lia).
  change (2 ^ 16) with 65536 in Hpow.
  assert (Hmask : to_uint64 (2 ^ p - 1) = Z.ones p).
  { unfold to_uint64. rewrite Z.ones_equiv, Z.mod_small; [lia|].
    split; [|cbn]; lia. }
  rewrite Hmask, Z.land_ones by lia.
  assert (Hr : 0 <= to_uint64 (maphash_String (seed m) key) mod 2 ^ p < 2 ^ p)
    by (apply Z.mod_pos_bound; lia).
  unfold to_int. replace (_ <? 2 ^ 63) with true by (cbn in *; lia). exact Hr.
Qed.

Lemma shard_at_routed (m : Map V Seed) (key : string) :
  wf m -> exists d, shard_at m (getIndex maphash_String m key) = Some d.
Proof.
  intros Hwf. pose proof (getIndex_bound m key Hwf) as Hb.
  unfold shard_at. replace (_ <? 0) with false by lia.
  apply lookup_lt_is_Some_2. lia.
Qed.

End Routing.

Section ShardCountClaims.

Context {V : Type} {Seed : Type} (maphash_String : Seed -> string -> Z).

(** C3: the shard count of [New(n)] is the smallest power of two not below
    [n], clamped to [1, 65536]: 100 gives 128, [n <= 0] gives 1 and
    [n > 65536] gives 65536. *)
Theorem New_ShardCount_hint (s : Seed) (n : Z) :
  exists c, ShardCount (@New V Seed s [n]) = Some (c, New s [n]) /\
    c = trueShards n /\
    (n <= 0 -> c = 1) /\
    (65536 < n -> c = 65536) /\
    (1 <= n <= 65536 ->
       exists p, 0 <= p /\ c = 2 ^ p /\ n <= c /\
         forall q, 0 <= q -> n <= 2 ^ q -> c <= 2 ^ q) /\
    (n = 100 -> c = 128).
Proof.
  destruct (trueShards_cases n) as (H1 & H2 & H3).
  destruct (trueShards_pow2 n) as (p0 & Hp0 & Hb0).
  assert (Hc : Z.of_nat (length (datas (@New V Seed s [n]))) = trueShards n).
  { unfold New; simpl. rewrite length_replicate, Z2Nat.id; [reflexivity|].
    rewrite Hp0. lia. }
  exists (trueShards n). split; [unfold ShardCount; now rewrite Hc|].
  split; [reflexivity|]. split; [exact H1|]. split; [exact H2|]. split.
  - intros Hn. rewrite H3 by exact Hn.
    exists (Z.log2_up n). split; [apply Z.log2_up_nonneg|]. split; [reflexivity|].
    split.
    + destruct (Z.eq_dec n 1) as [->|Hne]; [cbn; lia|].
      apply Z.log2_up_spec. lia.
    + intros q Hq Hnq. apply Z.pow_le_mono_r; [lia|].
      apply Z.log2_up_le_pow2; lia.
  - intros ->. reflexivity.
Qed.

(** C10: on a map built by [New] (with or without a hint) every key is
    routed to an index in [0, ShardCount()), the shard count being a power
    of two in [1, 65536], so the shard access of a point operation never
    goes out of range. *)
Theorem New_getIndex_in_bounds (s : Seed) (hint : list Z) (key : string) :
  exists c, ShardCount (@New V Seed s hint) = Some (c, New s hint) /\
    (exists p, c = 2 ^ p /\ 0 <= p <= 16) /\
    0 <= getIndex maphash_String (@New V Seed s hint) key < c /\
    exists d, shard_at (@New V Seed s hint) (getIndex maphash_String (@New V Seed s hint) key) = Some d.
Proof.
  exists (Z.of_nat (length (datas (@New V Seed s hint)))).
  split; [reflexivity|].
  split; [destruct (New_length (V:=V) s hint) as (p & Hp & Hb); exists p; split; [exact Hp | exact Hb]|].
  split; [apply getIndex_bound, New_wf|].
  apply shard_at_routed, New_wf.
Qed.

End ShardCountClaims.

(** * Point operations *)

Section PointOps.

Context {V : Type} (zero : V) {Seed : Type} (maphash_String : Seed -> string -> Z).

Local Abbreviation getIndex := (getIndex maphash_String).
Local Abbreviation find := (find maphash_String).

Lemma length_with_shard (m : Map V Seed) i d :
  length (datas (with_shard m i d)) = length (datas m).
Proof. apply length_insert. Qed.

Lemma getIndex_with_shard (m : Map V Seed) i d k :
  getIndex (with_shard m i d) k = getIndex m k.
Proof. unfold getIndex. now rewrite length_with_shard. Qed.

Lemma wf_with_shard (m : Map V Seed) i d : wf m -> wf (with_shard m i d).
Proof. unfold wf. now rewrite length_with_shard. Qed.

Lemma shard_at_with_shard (m : Map V Seed) i j d d0 :
  shard_at m i = Some d0 ->
  shard_at (with_shard m i d) j = if decide (j = i) then Some d else shard_at m j.
Proof.
  unfold shard_at, with_shard; simpl. intros Hi.
  destruct (Z.ltb_spec i 0) as [Hneg|Hnn]; [discriminate|].
  destruct (Z.ltb_spec j 0) as [Hj|Hj].
  - rewrite decide_False by lia. reflexivity.
  - destruct (decide (j = i)) as [->|Hne].
    + apply list_lookup_insert_eq. apply lookup_lt_Some in Hi. exact Hi.
    + apply list_lookup_insert_ne. lia.
Qed.

Lemma find_shard (m : Map V Seed) k d :
  shard_at m (getIndex m k) = Some d -> find m k = d !! k.
Proof. unfold find. now intros ->. Qed.

Lemma find_with_shard (m : Map V Seed) k d d' k' :
  shard_at m (getIndex m k) = Some d ->
  find (with_shard m (getIndex m k) d') k' =
    if decide (getIndex m k' = getIndex m k) then d' !! k' else find m k'.
Proof.
  intros Hd. unfold find at 1. rewrite getIndex_with_shard.
  rewrite (shard_at_with_shard _ _ _ _ _ Hd).
  destruct (decide _); reflexivity.
Qed.

(** Writing [d'] into the shard of [k] changes no entry of a key other
    than [k] when [d'] agrees with the shard [d] off [k]. *)
Lemma find_with_shard_other (m : Map V Seed) k d d' k' :
  shard_at m (getIndex m k) = Some d ->
  k' <> k -> d' !! k' = d !! k' ->
  find (with_shard m (getIndex m k) d') k' = find m k'.
Proof.
  intros Hd Hne Hagree. rewrite (find_with_shard _ _ _ _ _ Hd).
  destruct (decide _) as [He|]; [|reflexivity].
  rewrite Hagree. symmetry. apply find_shard. now rewrite He.
Qed.

Lemma Get_find (m : Map V Seed) k :
  wf m ->
  Get zero maphash_String k m =
    Some (match find m k with Some v => (v, true) | None => (zero, false) end, m).
Proof.
  intros Hwf. destruct (shard_at_routed maphash_String m k Hwf) as (d & Hd).
  unfold Get. rewrite Hd, (find_shard _ _ _ Hd). simpl.
  destruct (d !! k); reflexivity.
Qed.

Lemma Set_spec (m : Map V Seed) k v :
  wf m ->
  exists m', Set_ maphash_String k v m = Some (tt, m') /\ wf m' /\
    find m' k = Some v /\ forall k', k' <> k -> find m' k' = find m k'.
Proof.
  intros Hwf. destruct (shard_at_routed maphash_String m k Hwf) as (d & Hd).
  unfold Set_. rewrite Hd. simpl. eexists. split; [reflexivity|].
  split; [now apply wf_with_shard|]. split.
  - rewrite (find_with_shard _ _ _ _ _ Hd), decide_True by reflexivity.
    apply lookup_insert_eq.
  - intros k' Hne. apply (find_with_shard_other _ _ _ _ _ Hd Hne).
    now apply lookup_insert_ne.
Qed.

Lemma Delete_shard_other (m : Map V Seed) k d k' :
  shard_at m (getIndex m k) = Some d -> k' <> k ->
  find (with_shard m (getIndex m k) (delete k d)) k' = find m k'.
Proof.
  intros Hd Hne. apply (find_with_shard_other _ _ _ _ _ Hd Hne).
  now apply lookup_delete_ne.
Qed.

Lemma Delete_shard_self (m : Map V Seed) k d :
  shard_at m (getIndex m k) = Some d ->
  find (with_shard m (getIndex m k) (delete k d)) k = None.
Proof.
  intros Hd. rewrite (find_with_shard _ _ _ _ _ Hd), decide_True by reflexivity.
  apply lookup_delete_eq.
Qed.

Lemma step_spec (o : op V) (m : Map V Seed) (k : string) :
  wf m ->
  exists m', step maphash_String o m = Some (tt, m') /\ wf m' /\
    (mutates k o = false -> find m' k = find m k).
Proof.
  intros Hwf. destruct o as [k' v|k' v|k'|k' p|]; simpl.
  - destruct (Set_spec m k' v Hwf) as (m' & Hs & Hw & _ & Ho).
    exists m'. split; [exact Hs|]. split; [exact Hw|].
    intros Hm. apply bool_decide_eq_false in Hm. apply Ho. congruence.
  - destruct (shard_at_routed maphash_String m k' Hwf) as (d & Hd).
    unfold SetWithNotExist. rewrite Hd. simpl. destruct (d !! k') eqn:Hk.
    + exists m. auto.
    + eexists. split; [reflexivity|]. split; [now apply wf_with_shard|].
      intros Hm. apply bool_decide_eq_false in Hm.
      apply (find_with_shard_other _ _ _ _ _ Hd); [congruence|].
      apply lookup_insert_ne. congruence.
  - destruct (shard_at_routed maphash_String m k' Hwf) as (d & Hd).
    unfold Delete. rewrite Hd. simpl. destruct (d !! k') eqn:Hk.
    + eexists. split; [reflexivity|]. split; [now apply wf_with_shard|].
      intros Hm. apply bool_decide_eq_false in Hm.
      apply Delete_shard_other; [exact Hd|congruence].
    + exists m. auto.
  - destruct (shard_at_routed maphash_String m k' Hwf) as (d & Hd).
    unfold DeleteIf. rewrite Hd. simpl. destruct (d !! k') eqn:Hk.
    + destruct (p v); simpl.
      * eexists. split; [reflexivity|]. split; [now apply wf_with_shard|].
        intros Hm. apply bool_decide_eq_false in Hm.
        apply Delete_shard_other; [exact Hd|congruence].
      * exists m. auto.
    + exists m. auto.
  - eexists. split; [reflexivity|]. split; [|discriminate].
    unfold wf in *. simpl. now rewrite length_map.
Qed.

Lemma run_app (os1 os2 : list (op V)) (m : Map V Seed) :
  run maphash_String (os1 ++ os2) m =
    '(_, m') ← run maphash_String os1 m; run maphash_String os2 m'.
Proof.
  revert m. induction os1 as [|o os1 IH]; intros m; simpl; [reflexivity|].
  destruct (step maphash_String o m) as [[[] m']|]; simpl; [apply IH|reflexivity].
Qed.

Lemma run_wf (os : list (op V)) (m : Map V Seed) :
  wf m -> exists m', run maphash_String os m = Some (tt, m') /\ wf m'.
Proof.
  revert m. induction os as [|o os IH]; intros m Hwf; simpl; [eauto|].
  destruct (step_spec o m "" Hwf) as (m1 & Hs & Hw1 & _). rewrite Hs. simpl.
  now apply IH.
Qed.

Lemma run_frame (os : list (op V)) (m : Map V Seed) (k : string) :
  wf m -> forallb (fun o => negb (mutates k o)) os = true ->
  exists m', run maphash_String os m = Some (tt, m') /\ wf m' /\ find m' k = find m k.
Proof.
  revert m. induction os as [|o os IH]; intros m Hwf Hall; simpl; [eauto|].
  simpl in Hall. apply andb_true_iff in Hall as [Ho Hall].
  destruct (step_spec o m k Hwf) as (m1 & Hs & Hw1 & Hf1). rewrite Hs. simpl.
  destruct (IH m1 Hw1 Hall) as (m' & Hr & Hw' & Hf'). exists m'.
  split; [exact Hr|]. split; [exact Hw'|]. rewrite Hf'. apply Hf1.
  now apply negb_true_iff.
Qed.

End PointOps.

Section PointClaims.

Context {V : Type} (zero : V) {Seed : Type} (maphash_String : Seed -> string -> Z).

Local Abbreviation find := (find maphash_String).

(** C1: on a map built by [New], after [Set(k, v)] and any later calls
    that do not mutate [k], [Get(k)] returns [(v, true)]. *)
Theorem Set_then_Get (s : Seed) (hint : list Z) (ops1 ops2 : list (op V))
    (k : string) (v : V) :
  forallb (fun o => negb (mutates k o)) ops2 = true ->
  exists m, run maphash_String (ops1 ++ OSet k v :: ops2) (New s hint) = Some (tt, m) /\
    Get zero maphash_String k m = Some ((v, true), m).
Proof.
  intros Hall. rewrite run_app.
  destruct (run_wf maphash_String ops1 (New s hint) (New_wf s hint)) as (m1 & Hr1 & Hw1).
  rewrite Hr1. simpl.
  destruct (Set_spec maphash_String m1 k v Hw1) as (m2 & Hs & Hw2 & Hf2 & _).
  rewrite Hs. simpl.
  destruct (run_frame maphash_String ops2 m2 k Hw2 Hall) as (m & Hr & Hw & Hf).
  exists m. split; [exact Hr|].
  rewrite (Get_find zero maphash_String m k Hw), Hf, Hf2. reflexivity.
Qed.

(** C2: [SetWithNotExist(k, v)] returns [(old, false)] and leaves the map
    as it is when [k] holds [old], and otherwise inserts [v] (as [Set]
    would) and returns [(v, true)]; a second call then returns what the
    first one stored, with [false], and [Get(k)] still yields it. *)
Theorem SetWithNotExist_spec (m : Map V Seed) (k : string) (v v1 v2 : V) :
  wf m ->
  (forall old, find m k = Some old ->
     SetWithNotExist maphash_String k v m = Some ((old, false), m)) /\
  (find m k = None ->
     exists m', SetWithNotExist maphash_String k v m = Some ((v, true), m') /\
       Set_ maphash_String k v m = Some (tt, m') /\ find m' k = Some v) /\
  (exists r1 b1 m1, SetWithNotExist maphash_String k v1 m = Some ((r1, b1), m1) /\
     (find m k = None -> r1 = v1 /\ b1 = true) /\
     SetWithNotExist maphash_String k v2 m1 = Some ((r1, false), m1) /\
     Get zero maphash_String k m1 = Some ((r1, true), m1)).
Proof.
  intros Hwf. destruct (shard_at_routed maphash_String m k Hwf) as (d & Hd).
  rewrite (find_shard maphash_String m k d Hd).
  assert (Hd1 : forall x, shard_at (with_shard m (getIndex maphash_String m k) (<[k := x]> d))
                  (getIndex maphash_String (with_shard m (getIndex maphash_String m k) (<[k := x]> d)) k)
                  = Some (<[k := x]> d)).
  { intros x. rewrite getIndex_with_shard, (shard_at_with_shard _ _ _ _ _ Hd).
    now rewrite decide_True. }
  split; [|split].
  - intros old Hold. unfold SetWithNotExist. rewrite Hd. simpl. now rewrite Hold.
  - intros Hnone. unfold SetWithNotExist, Set_. rewrite Hd. simpl. rewrite Hnone.
    eexists. split; [reflexivity|]. split; [reflexivity|].
    rewrite (find_shard _ _ _ _ (Hd1 v)). apply lookup_insert_eq.
  - unfold SetWithNotExist at 1. rewrite Hd. simpl. destruct (d !! k) as [old|] eqn:Hk.
    + exists old, false, m. split; [reflexivity|]. split; [discriminate|].
      split.
      * unfold SetWithNotExist. rewrite Hd. simpl. now rewrite Hk.
      * rewrite (Get_find zero maphash_String m k Hwf), (find_shard _ _ _ _ Hd), Hk.
        reflexivity.
    + eexists v1, true, _. split; [reflexivity|]. split; [auto|]. split.
      * unfold SetWithNotExist. rewrite Hd1. simpl. now rewrite lookup_insert_eq.
      * rewrite (Get_find zero maphash_String _ k (wf_with_shard _ _ _ Hwf)).
        rewrite (find_shard _ _ _ _ (Hd1 v1)), lookup_insert_eq. reflexivity.
Qed.

(** C6: [DeleteIf(k, pred)] returns true exactly when [k] is present and
    [pred] holds of its value, and then removes that entry alone; otherwise
    it returns false and leaves the map unchanged. *)
Theorem DeleteIf_spec (m : Map V Seed) (k : string) (pred : V -> bool) :
  wf m ->
  exists r m', DeleteIf maphash_String k pred m = Some (r, m') /\
    (r = true <-> exists v, find m k = Some v /\ pred v = true) /\
    (r = false -> m' = m) /\
    (r = true -> find m' k = None /\ forall k', k' <> k -> find m' k' = find m k').
Proof.
  intros Hwf. destruct (shard_at_routed maphash_String m k Hwf) as (d & Hd).
  rewrite (find_shard maphash_String m k d Hd).
  unfold DeleteIf. rewrite Hd. simpl. destruct (d !! k) as [v|] eqn:Hk.
  - destruct (pred v) eqn:Hp; simpl.
    + eexists true, _. split; [reflexivity|]. split; [split; eauto|].
      split; [discriminate|]. intros _. split.
      * now apply Delete_shard_self.
      * intros k' Hne. now apply Delete_shard_other.
    + exists false, m. split; [reflexivity|]. split; [|split; [auto|discriminate]].
      split; [discriminate|]. intros (v' & Hv' & Hp'). congruence.
  - exists false, m. split; [reflexivity|]. split; [|split; [auto|discriminate]].
    split; [discriminate|]. intros (v' & Hv' & _). discriminate.
Qed.

(** C7: [Delete(k)] on an absent key returns false and leaves the map, and
    so [Len()], unchanged; on a present key it removes that entry alone and
    returns true. *)
Theorem Delete_spec (m : Map V Seed) (k : string) :
  wf m ->
  (find m k = None ->
     exists m', Delete maphash_String k m = Some (false, m') /\ m' = m /\
       fst <$> Len m' = fst <$> Len m) /\
  (forall v, find m k = Some v ->
     exists m', Delete maphash_String k m = Some (true, m') /\
       find m' k = None /\ forall k', k' <> k -> find m' k' = find m k').
Proof.
  intros Hwf. destruct (shard_at_routed maphash_String m k Hwf) as (d & Hd).
  rewrite (find_shard maphash_String m k d Hd).
  unfold Delete. rewrite Hd. simpl. split.
  - intros ->. exists m. auto.
  - intros v ->. eexists. split; [reflexivity|]. split.
    + now apply Delete_shard_self.
    + intros k' Hne. now apply Delete_shard_other.
Qed.

(** C9: [GetWithDefault(k, d)] returns [(v, true)] when [k] holds [v] and
    [(d, false)] when [k] is absent; the map is left as it is, so the
    fallback is never inserted. *)
Theorem GetWithDefault_spec (m : Map V Seed) (k : string) (dflt : V) :
  wf m ->
  GetWithDefault maphash_String k dflt m =
    Some (match find m k with Some v => (v, true) | None => (dflt, false) end, m) /\
  (find m k = None ->
     GetWithDefault maphash_String k dflt m = Some ((dflt, false), m) /\
     Get zero maphash_String k m = Some ((zero, false), m)).
Proof.
  intros Hwf. destruct (shard_at_routed maphash_String m k Hwf) as (d & Hd).
  rewrite (Get_find zero maphash_String m k Hwf).
  rewrite (find_shard maphash_String m k d Hd).
  unfold GetWithDefault. rewrite Hd. simpl.
  split; [now destruct (d !! k)|]. intros ->. auto.
Qed.

End PointClaims.

(** * Whole-map iterations *)

Section Iteration.

Context {V : Type} {Seed : Type}.

(** Go visits each entry of a map exactly once per [range] loop. *)
Context (range_order : nat -> gmap string V -> list (string * V)).
Hypothesis range_order_perm : forall i d, range_order i d ≡ₚ map_to_list d.

Lemma visit_order_perm (i : nat) (ds : list (gmap string V)) :
  visit_order range_order i ds ≡ₚ concat (map map_to_list ds).
Proof.
  revert i. induction ds as [|d ds IH]; intros i; simpl; [reflexivity|].
  rewrite range_order_perm, IH. reflexivity.
Qed.

Lemma range_tmp_spec (f : string -> V -> bool) (es : list (string * V)) calls cont :
  range_tmp f es = (calls, cont) ->
  exists rest, es = calls ++ rest /\
    ((cont = true /\ rest = [] /\ Forall (fun kv => f kv.1 kv.2 = true) calls) \/
     (cont = false /\ exists pre k v, calls = pre ++ [(k, v)] /\
        Forall (fun kv => f kv.1 kv.2 = true) pre /\ f k v = false)).
Proof.
  revert calls cont. induction es as [|[k v] es IH]; intros calls cont Hr; simpl in Hr.
  - injection Hr as <- <-. exists []. simpl. auto.
  - destruct (f k v) eqn:Hf; simpl in Hr.
    + destruct (range_tmp f es) as [c1 cont1] eqn:Hr1. injection Hr as <- <-.
      destruct (IH c1 cont1 eq_refl) as (rest & -> & [(-> & -> & Hall)|(-> & pre & k' & v' & -> & Hpre & Hf')]).
      * exists []. split; [reflexivity|]. left. split; [reflexivity|]. split; [reflexivity|].
        constructor; [exact Hf|exact Hall].
      * exists rest. split; [reflexivity|]. right. split; [reflexivity|].
        exists ((k, v) :: pre), k', v'. split; [reflexivity|]. split; [|exact Hf'].
        constructor; [exact Hf|exact Hpre].
    + injection Hr as <- <-. exists es. split; [reflexivity|]. right.
      split; [reflexivity|]. exists [], k, v. auto.
Qed.

Lemma range_shards_spec (f : string -> V -> bool) (i : nat) (ds : list (gmap string V)) :
  exists rest, visit_order range_order i ds = range_shards range_order f i ds ++ rest /\
    ((Forall (fun kv => f kv.1 kv.2 = true) (range_shards range_order f i ds) /\ rest = []) \/
     (exists pre k v, range_shards range_order f i ds = pre ++ [(k, v)] /\
        Forall (fun kv => f kv.1 kv.2 = true) pre /\ f k v = false)).
Proof.
  revert i. induction ds as [|d ds IH]; intros i; simpl.
  - exists []. auto.
  - destruct (range_tmp f (range_order i d)) as [calls cont] eqn:Hr.
    destruct (range_tmp_spec f _ calls cont Hr)
      as (rest1 & Hsplit & [(-> & -> & Hall)|(-> & pre & k & v & -> & Hpre & Hf)]).
    + rewrite Hsplit, app_nil_r.
      destruct (IH (S i)) as (rest2 & Hv & [(Hall2 & ->)|(pre & k & v & Heq & Hpre & Hf)]).
      * exists []. rewrite Hv, !app_nil_r. split; [reflexivity|]. left.
        split; [apply Forall_app; split; assumption|reflexivity].
      * exists rest2. rewrite Hv, app_assoc. split; [reflexivity|]. right.
        exists (calls ++ pre), k, v. rewrite Heq, app_assoc.
        split; [reflexivity|]. split; [apply Forall_app; split; assumption|exact Hf].
    + exists (rest1 ++ visit_order range_order (S i) ds).
      rewrite Hsplit, <- !app_assoc. split; [reflexivity|]. right.
      exists pre, k, v. auto.
Qed.

Context {E : Type}.

Lemma filter_not_in_delete (d : gmap string V) (k : string) (ks : list string) :
  filter (fun kv : string * V => kv.1 ∉ ks) (delete k d) =
  filter (fun kv : string * V => kv.1 ∉ k :: ks) d.
Proof.
  apply map_eq. intros j. apply option_eq. intros x.
  rewrite !map_lookup_filter_Some, lookup_delete_Some. simpl.
  rewrite elem_of_cons. naive_solver.
Qed.

Lemma prune_shard_app (f : string -> V -> bool * option E) pre rest d dn nn :
  Forall (fun kv => fails f kv = false) pre ->
  prune_shard f (pre ++ rest) d dn nn =
    let '(d', dn', nn', r, calls) :=
      prune_shard f rest
        (filter (fun kv : string * V => kv.1 ∉ (filter (fun kv => deletes f kv = true) pre).*1) d)
        (dn + Z.of_nat (length (filter (fun kv => deletes f kv = true) pre)))
        (nn + Z.of_nat (length (filter (fun kv => deletes f kv = false) pre))) in
    (d', dn', nn', r, pre ++ calls).
Proof.
  revert d dn nn. induction pre as [|[k v] pre IH]; intros d dn nn Hall.
  - simpl. rewrite map_filter_id by (intros; apply not_elem_of_nil).
    rewrite !Z.add_0_r.
    destruct (prune_shard f rest d dn nn) as [[[[? ?] ?] ?] ?]; reflexivity.
  - inversion Hall as [|? ? Hkv Hpre]; subst.
    assert (Hdel : deletes f (k, v) = fst (f k v)) by reflexivity.
    unfold fails in Hkv; simpl in Hkv.
    cbn [app prune_shard].
    destruct (f k v) as [ok [e|]] eqn:Hf; simpl in Hkv, Hdel; [discriminate|].
    rewrite !filter_cons, Hdel.
    destruct ok.
    + rewrite (IH _ _ _ Hpre), filter_not_in_delete.
      rewrite decide_True by reflexivity. rewrite decide_False by discriminate.
      simpl. replace (dn + 1 + Z.of_nat (length (filter (fun kv => deletes f kv = true) pre)))
        with (dn + Z.pos (Pos.of_succ_nat (length (filter (fun kv => deletes f kv = true) pre))))
        by lia.
      destruct (prune_shard f rest _ _ _) as [[[[? ?] ?] ?] ?]; reflexivity.
    + rewrite (IH _ _ _ Hpre).
      rewrite decide_False by discriminate. rewrite decide_True by reflexivity.
      simpl. replace (nn + 1 + Z.of_nat (length (filter (fun kv => deletes f kv = false) pre)))
        with (nn + Z.pos (Pos.of_succ_nat (length (filter (fun kv => deletes f kv = false) pre))))
        by lia.
      destruct (prune_shard f rest _ _ _) as [[[[? ?] ?] ?] ?]; reflexivity.
Qed.

Lemma prune_shard_ok (f : string -> V -> bool * option E) es d dn nn :
  Forall (fun kv => fails f kv = false) es ->
  prune_shard f es d dn nn =
    (filter (fun kv : string * V => kv.1 ∉ (filter (fun kv => deletes f kv = true) es).*1) d,
     dn + Z.of_nat (length (filter (fun kv => deletes f kv = true) es)),
     nn + Z.of_nat (length (filter (fun kv => deletes f kv = false) es)),
     None, es).
Proof.
  intros Hall. pose proof (prune_shard_app f es [] d dn nn Hall) as H.
  rewrite app_nil_r in H. rewrite H. simpl. now rewrite app_nil_r.
Qed.

Lemma prune_shard_err (f : string -> V -> bool * option E) pre k v b e post d dn nn :
  Forall (fun kv => fails f kv = false) pre -> f k v = (b, Some e) ->
  prune_shard f (pre ++ (k, v) :: post) d dn nn =
    (filter (fun kv : string * V => kv.1 ∉ (filter (fun kv => deletes f kv = true) pre).*1) d,
     dn + Z.of_nat (length (filter (fun kv => deletes f kv = true) pre)),
     nn + Z.of_nat (length (filter (fun kv => deletes f kv = false) pre)),
     Some e, pre ++ [(k, v)]).
Proof.
  intros Hall Hf. rewrite (prune_shard_app f pre _ d dn nn Hall).
  cbn [prune_shard]. now rewrite Hf.
Qed.

(** Deleting, key by key, the entries of a whole shard that [f] selects
    leaves exactly the entries [f] keeps. *)
Lemma prune_whole_shard (f : string -> V -> bool * option E) i d :
  filter (fun kv : string * V =>
            kv.1 ∉ (filter (fun kv => deletes f kv = true) (range_order i d)).*1) d =
  filter (fun kv => deletes f kv = false) d.
Proof.
  apply map_filter_ext. intros k x Hk. simpl. split.
  - intros Hnotin. destruct (deletes f (k, x)) eqn:Hd; [|reflexivity].
    exfalso. apply Hnotin. apply list_elem_of_fmap. exists (k, x).
    split; [reflexivity|]. apply list_elem_of_filter. split; [exact Hd|].
    rewrite range_order_perm. now apply elem_of_map_to_list.
  - intros Hd Hin. apply list_elem_of_fmap in Hin as ([k' x'] & Heq & Hin).
    simpl in Heq; subst k'. apply list_elem_of_filter in Hin as [Hd' Hin].
    rewrite range_order_perm, elem_of_map_to_list in Hin. congruence.
Qed.

Lemma prune_loop_ok (f : string -> V -> bool * option E) i ds dn nn :
  Forall (fun kv => fails f kv = false) (visit_order range_order i ds) ->
  prune_loop range_order f i ds dn nn =
    (map (filter (fun kv => deletes f kv = false)) ds,
     dn + Z.of_nat (length (filter (fun kv => deletes f kv = true) (visit_order range_order i ds))),
     nn + Z.of_nat (length (filter (fun kv => deletes f kv = false) (visit_order range_order i ds))),
     None, visit_order range_order i ds).
Proof.
  revert i dn nn. induction ds as [|d ds IH]; intros i dn nn Hall; simpl in *.
  - now rewrite !Z.add_0_r.
  - apply Forall_app in Hall as [Hd Hds].
    rewrite (prune_shard_ok f _ d dn nn Hd), (IH (S i) _ _ Hds), prune_whole_shard.
    rewrite !filter_app, !length_app, !Nat2Z.inj_add, !Z.add_assoc. reflexivity.
Qed.

Lemma prune_loop_err (f : string -> V -> bool * option E) i ds j d pre k v b e post dn nn :
  ds !! j = Some d -> range_order (i + j) d = pre ++ (k, v) :: post ->
  f k v = (b, Some e) ->
  Forall (fun kv => fails f kv = false) (visit_order range_order i (take j ds) ++ pre) ->
  prune_loop range_order f i ds dn nn =
    (map (filter (fun kv => deletes f kv = false)) (take j ds) ++
       filter (fun kv : string * V => kv.1 ∉ (filter (fun kv => deletes f kv = true) pre).*1) d
       :: drop (S j) ds,
     dn + Z.of_nat (length (filter (fun kv => deletes f kv = true)
                             (visit_order range_order i (take j ds) ++ pre))),
     nn + Z.of_nat (length (filter (fun kv => deletes f kv = false)
                             (visit_order range_order i (take j ds) ++ pre))),
     Some e, visit_order range_order i (take j ds) ++ pre ++ [(k, v)]).
Proof.
  revert i j dn nn. induction ds as [|d0 ds IH]; intros i j dn nn Hj Hord Hf Hall;
    [discriminate|].
  destruct j as [|j]; simpl in Hj |- *.
  - injection Hj as ->. rewrite Nat.add_0_r in Hord. simpl in Hall.
    rewrite Hord, (prune_shard_err f pre k v b e post d dn nn Hall Hf). reflexivity.
  - simpl in Hall. rewrite <- app_assoc in Hall. apply Forall_app in Hall as [Hd0 Hrest].
    rewrite (prune_shard_ok f _ d0 dn nn Hd0), prune_whole_shard.
    rewrite Nat.add_succ_r, <- Nat.add_succ_l in Hord.
    rewrite (IH (S i) j _ _ Hj Hord Hf Hrest).
    rewrite <- !app_assoc, !filter_app, !length_app, !Nat2Z.inj_add, !Z.add_assoc.
    reflexivity.
Qed.

(** C8: [Range(f)] leaves the map as it is; the calls it makes to [f] are
    a prefix of the visiting order, which lists every entry of every shard
    exactly once (shard by shard): either all of it, [f] having returned
    true on each, or up to and including the first pair on which [f]
    returned false, with nothing of that shard or of a later one after it. *)
Theorem Range_spec (m : Map V Seed) (f : string -> V -> bool) :
  exists calls, Range range_order f m = Some (calls, m) /\
    visit_order range_order 0 (datas m) ≡ₚ all_entries m /\
    exists rest, visit_order range_order 0 (datas m) = calls ++ rest /\
      ((Forall (fun kv => f kv.1 kv.2 = true) calls /\ rest = []) \/
       (exists pre k v, calls = pre ++ [(k, v)] /\
          Forall (fun kv => f kv.1 kv.2 = true) pre /\ f k v = false)).
Proof.
  exists (range_shards range_order f 0 (datas m)). split; [reflexivity|].
  split; [apply visit_order_perm|]. apply range_shards_spec.
Qed.

(** C4: when the first non-nil error of [f] in visiting order comes at the
    entry [(k, v)] of shard [j], [Prune(f)] calls [f] on nothing after it,
    returns the counts of the deletions and retentions decided before it
    together with the error, and keeps those deletions: earlier shards hold
    the entries [f] kept, shard [j] lost the keys [f] deleted before [(k, v)],
    and later shards are untouched. *)
Theorem Prune_error (m : Map V Seed) (f : string -> V -> bool * option E)
    (j : nat) (d : gmap string V) pre k v b e post :
  datas m !! j = Some d ->
  range_order j d = pre ++ (k, v) :: post ->
  f k v = (b, Some e) ->
  Forall (fun kv => fails f kv = false)
    (visit_order range_order 0 (take j (datas m)) ++ pre) ->
  Prune range_order f m =
    Some ((Z.of_nat (length (filter (fun kv => deletes f kv = true)
                              (visit_order range_order 0 (take j (datas m)) ++ pre))),
           Z.of_nat (length (filter (fun kv => deletes f kv = false)
                              (visit_order range_order 0 (take j (datas m)) ++ pre))),
           Some e,
           visit_order range_order 0 (take j (datas m)) ++ pre ++ [(k, v)]),
          mkMap (map (filter (fun kv => deletes f kv = false)) (take j (datas m)) ++
                   filter (fun kv : string * V =>
                             kv.1 ∉ (filter (fun kv => deletes f kv = true) pre).*1) d
                   :: drop (S j) (datas m))
                (seed m)).
Proof.
  intros Hj Hord Hf Hall. unfold Prune.
  rewrite (prune_loop_err f 0 (datas m) j d pre k v b e post 0 0 Hj Hord Hf Hall).
  reflexivity.
Qed.

(** C5: with a callback that never errs, [Prune(f)] deletes exactly the
    entries [f] selects and keeps the others, returning the number of each
    and a nil error, whatever the visiting order. *)
Theorem Prune_no_error (m : Map V Seed) (f : string -> V -> bool * option E) :
  (forall k v, snd (f k v) = None) ->
  Prune range_order f m =
    Some ((Z.of_nat (length (filter (fun kv => deletes f kv = true) (all_entries m))),
           Z.of_nat (length (filter (fun kv => deletes f kv = false) (all_entries m))),
           None, visit_order range_order 0 (datas m)),
          mkMap (map (filter (fun kv => deletes f kv = false)) (datas m)) (seed m)).
Proof.
  intros Hok. unfold Prune.
  rewrite prune_loop_ok.
  - unfold all_entries. rewrite <- (visit_order_perm 0 (datas m)). reflexivity.
  - apply Forall_forall. intros [k v] _. unfold fails. simpl. now rewrite Hok.
Qed.

End Iteration.

(** * Counting, composition and routing *)

Section Counting.

Context {V : Type} (zero : V) {Seed : Type} (maphash_String : Seed -> string -> Z).

Local Abbreviation getIndex := (getIndex maphash_String).
Local Abbreviation find := (find maphash_String).

Lemma Len_fold (ds : list (gmap string V)) c :
  fold_left (fun count d => count + Z.of_nat (size d)) ds c =
    c + Z.of_nat (length (concat (map map_to_list ds))).
Proof.
  revert c. induction ds as [|d ds IH]; intros c; simpl; [lia|].
  rewrite IH, length_app, length_map_to_list. lia.
Qed.

Lemma Len_entries (m : Map V Seed) :
  Len m = Some (Z.of_nat (length (all_entries m)), m).
Proof. unfold Len, all_entries. now rewrite Len_fold. Qed.

Lemma entries_insert (ds : list (gmap string V)) i d d' :
  ds !! i = Some d ->
  (length (concat (map map_to_list (<[i := d']> ds))) + size d =
   length (concat (map map_to_list ds)) + size d')%nat.
Proof.
  revert i. induction ds as [|d0 ds IH]; intros [|i] Hi; simpl in *; try discriminate.
  - injection Hi as ->. rewrite !length_app, !length_map_to_list. lia.
  - rewrite !length_app. specialize (IH i Hi). lia.
Qed.

Lemma entries_with_shard (m : Map V Seed) i d d' :
  shard_at m i = Some d ->
  (length (all_entries (with_shard m i d')) + size d =
   length (all_entries m) + size d')%nat.
Proof.
  unfold shard_at, with_shard, all_entries; simpl.
  destruct (i <? 0); [discriminate|]. apply entries_insert.
Qed.

Lemma entries_empty_shards (ds : list (gmap string V)) :
  Forall (fun d => d = ∅) ds -> concat (map map_to_list ds) = [].
Proof.
  induction 1 as [|d ds -> _ IH]; simpl; [reflexivity|].
  now rewrite map_to_list_empty, IH.
Qed.

Lemma size_delete_Some (d : gmap string V) k v :
  d !! k = Some v -> size d = S (size (delete k d)).
Proof.
  intros Hk. rewrite <- (map_size_insert_None k v (delete k d)) by apply lookup_delete_eq.
  now rewrite insert_delete_id.
Qed.

Lemma find_New (s : Seed) (hint : list Z) k : find (@New V Seed s hint) k = None.
Proof.
  unfold find, shard_at, New; simpl.
  destruct (_ <? 0); [reflexivity|].
  destruct (replicate _ ∅ !! _) as [d|] eqn:Hd; [|reflexivity].
  apply lookup_replicate in Hd as [-> _]. apply lookup_empty.
Qed.

Lemma shard_at_Some (m : Map V Seed) i d :
  shard_at m i = Some d -> 0 <= i /\ datas m !! Z.to_nat i = Some d.
Proof. unfold shard_at. destruct (Z.ltb_spec i 0); [discriminate|]. auto. Qed.

Lemma with_shard_id (m : Map V Seed) i d :
  shard_at m i = Some d -> with_shard m i d = m.
Proof.
  intros Hd. apply shard_at_Some in Hd as [_ Hd]. destruct m as [ds s].
  unfold with_shard; simpl in *. now rewrite list_insert_id.
Qed.

Lemma with_shard_with_shard (m : Map V Seed) i d d' :
  with_shard (with_shard m i d) i d' = with_shard m i d'.
Proof. unfold with_shard; simpl. now rewrite list_insert_insert_eq. Qed.

(** Writing [k] through [Set] inserts it into its shard. *)
Lemma Set_count (m : Map V Seed) k v :
  wf m ->
  exists m', Set_ maphash_String k v m = Some (tt, m') /\ wf m' /\
    (forall k', k' <> k -> find m' k' = find m k') /\
    length (all_entries m') =
      (length (all_entries m) + match find m k with Some _ => 0 | None => 1 end)%nat.
Proof.
  intros Hwf. destruct (shard_at_routed maphash_String m k Hwf) as (d & Hd).
  destruct (Set_spec maphash_String m k v Hwf) as (m' & Hs & Hw & _ & Ho).
  exists m'. split; [exact Hs|]. split; [exact Hw|]. split; [exact Ho|].
  unfold Set_ in Hs. cbv zeta in Hs. rewrite Hd in Hs. simpl in Hs. injection Hs as <-.
  pose proof (entries_with_shard m _ d (<[k:=v]> d) Hd) as Hl.
  rewrite map_size_insert in Hl. rewrite (find_shard maphash_String _ _ _ Hd).
  destruct (d !! k); simpl in Hl; lia.
Qed.

Lemma run_sets_count (kvs : list (string * V)) (m : Map V Seed) :
  wf m -> NoDup kvs.*1 -> Forall (fun k => find m k = None) kvs.*1 ->
  exists m', run maphash_String (map (fun kv => OSet kv.1 kv.2) kvs) m = Some (tt, m') /\
    wf m' /\ length (all_entries m') = (length (all_entries m) + length kvs)%nat.
Proof.
  revert m. induction kvs as [|[k v] kvs IH]; intros m Hwf Hnd Hfr; simpl.
  - exists m. split; [reflexivity|]. split; [exact Hwf|]. lia.
  - simpl in Hnd, Hfr. apply NoDup_cons in Hnd as [Hnotin Hnd].
    apply Forall_cons in Hfr as [Hk Hfr].
    destruct (Set_count m k v Hwf) as (m1 & Hs & Hw1 & Ho & Hl). rewrite Hs. simpl.
    destruct (IH m1 Hw1 Hnd) as (m' & Hr & Hw' & Hl').
    + apply Forall_forall. intros k' Hk'. rewrite Ho by (intros ->; contradiction).
      eapply Forall_forall in Hfr; [exact Hfr|exact Hk'].
    + exists m'. split; [exact Hr|]. split; [exact Hw'|]. rewrite Hl', Hl, Hk. lia.
Qed.

(** X1: a new map, with or without a size hint, is empty: [Len()] is 0 and
    [Get] reports every key absent with the zero value; without a hint it
    has 64 shards. *)
Theorem New_empty (s : Seed) (hint : list Z) (k : string) :
  Len (@New V Seed s hint) = Some (0, New s hint) /\
  Get zero maphash_String k (@New V Seed s hint) = Some ((zero, false), New s hint) /\
  ShardCount (@New V Seed s []) = Some (64, New s []).
Proof.
  split; [|split].
  - rewrite Len_entries. unfold all_entries, New; simpl.
    rewrite entries_empty_shards; [reflexivity|]. apply Forall_replicate. reflexivity.
  - rewrite (Get_find zero maphash_String _ k (New_wf s hint)), find_New. reflexivity.
  - reflexivity.
Qed.

(** X2: [LenWithSlice()] returns one count per shard, in shard order, each
    the number of entries of its shard; the counts add up to [Len()]. *)
Theorem LenWithSlice_Len (m : Map V Seed) :
  exists counts n, LenWithSlice m = Some (counts, m) /\ Len m = Some (n, m) /\
    ShardCount m = Some (Z.of_nat (length counts), m) /\
    (forall i d, datas m !! i = Some d -> counts !! i = Some (Z.of_nat (size d))) /\
    fold_right Z.add 0 counts = n.
Proof.
  assert (Hfold : forall ds acc,
    fold_left (fun counts d => counts ++ [Z.of_nat (size d)]) ds acc =
      acc ++ map (fun d : gmap string V => Z.of_nat (size d)) ds).
  { induction ds as [|d ds IH]; intros acc; simpl; [now rewrite app_nil_r|].
    rewrite IH, <- app_assoc. reflexivity. }
  exists (map (fun d : gmap string V => Z.of_nat (size d)) (datas m)),
    (Z.of_nat (length (all_entries m))).
  split; [unfold LenWithSlice; now rewrite Hfold|].
  split; [apply Len_entries|].
  split; [unfold ShardCount; now rewrite length_map|].
  split.
  - intros i d Hi. apply list_lookup_fmap_Some. eauto.
  - unfold all_entries. induction (datas m) as [|d ds IH]; simpl; [reflexivity|].
    rewrite IH, length_app, length_map_to_list. lia.
Qed.

(** X3: on a well-formed map, [Set(k, v)] adds one to [Len()] when [k] was
    absent and leaves it unchanged when [k] was present. *)
Theorem Set_Len (m : Map V Seed) (k : string) (v : V) (n : Z) :
  wf m -> Len m = Some (n, m) ->
  exists m', Set_ maphash_String k v m = Some (tt, m') /\
    Len m' = Some (n + match find m k with Some _ => 0 | None => 1 end, m').
Proof.
  intros Hwf Hn. rewrite Len_entries in Hn. injection Hn as <-.
  destruct (Set_count m k v Hwf) as (m' & Hs & _ & _ & Hl).
  exists m'. split; [exact Hs|]. rewrite Len_entries, Hl.
  destruct (find m k); do 2 f_equal; lia.
Qed.

(** X4: on a well-formed map, [Delete(k)] reports true exactly when [k] was
    present and then [Len()] drops by one, otherwise it is unchanged;
    [DeleteIf(k, delIf)] likewise, reporting true exactly when [k] was
    present with a value [delIf] accepts. *)
Theorem Delete_Len (m : Map V Seed) (k : string) (delIf : V -> bool) (n : Z) :
  wf m -> Len m = Some (n, m) ->
  (exists b m', Delete maphash_String k m = Some (b, m') /\
     (b = true <-> is_Some (find m k)) /\ Len m' = Some (if b then n - 1 else n, m')) /\
  (exists b m', DeleteIf maphash_String k delIf m = Some (b, m') /\
     (b = true <-> exists v, find m k = Some v /\ delIf v = true) /\
     Len m' = Some (if b then n - 1 else n, m')).
Proof.
  intros Hwf Hn. rewrite Len_entries in Hn. injection Hn as <-.
  destruct (shard_at_routed maphash_String m k Hwf) as (d & Hd).
  rewrite (find_shard maphash_String _ _ _ Hd).
  pose proof (entries_with_shard m _ d (delete k d) Hd) as Hl.
  unfold Delete, DeleteIf; cbv zeta. rewrite Hd. simpl.
  destruct (d !! k) as [v|] eqn:Hk.
  - pose proof (size_delete_Some d k v Hk) as Hs.
    split.
    + exists true; eexists; split; [reflexivity|]. split; [split; [intros _; eexists; reflexivity|reflexivity]|].
      rewrite Len_entries. do 2 f_equal. lia.
    + destruct (delIf v) eqn:Hp; simpl.
      * exists true; eexists; split; [reflexivity|].
        split; [split; [intros _; exists v; auto|reflexivity]|].
        rewrite Len_entries. do 2 f_equal. lia.
      * exists false, m. split; [reflexivity|].
        split; [split; [discriminate|intros (v' & Hv' & Hp'); congruence]|].
        rewrite Len_entries. reflexivity.
  - split.
    + exists false, m. split; [reflexivity|].
      split; [split; [discriminate|intros [? ?]; discriminate]|]. apply Len_entries.
    + exists false, m. split; [reflexivity|].
      split; [split; [discriminate|intros (? & ? & _); discriminate]|]. apply Len_entries.
Qed.

(** X5: storing pairs with distinct keys into a new map, one [Set] each,
    gives a map whose [Len()] is the number of pairs. *)
Theorem New_Sets_Len (s : Seed) (hint : list Z) (kvs : list (string * V)) :
  NoDup kvs.*1 ->
  exists m', run maphash_String (map (fun kv => OSet kv.1 kv.2) kvs) (New s hint) = Some (tt, m') /\
    Len m' = Some (Z.of_nat (length kvs), m').
Proof.
  intros Hnd.
  destruct (run_sets_count kvs (New s hint) (New_wf s hint) Hnd) as (m' & Hr & _ & Hl).
  { apply Forall_forall. intros k _. apply find_New. }
  exists m'. split; [exact Hr|]. rewrite Len_entries, Hl.
  unfold all_entries, New; simpl.
  rewrite entries_empty_shards; [reflexivity|]. apply Forall_replicate. reflexivity.
Qed.

(** X6: two [Set] calls on the same key leave the map as the last one
    alone would: the last write wins. *)
Theorem Set_Set (m : Map V Seed) (k : string) (v1 v2 : V) :
  ('(_, m1) ← Set_ maphash_String k v1 m; Set_ maphash_String k v2 m1) =
    Set_ maphash_String k v2 m.
Proof.
  unfold Set_; cbv zeta.
  destruct (shard_at m (getIndex m k)) as [d|] eqn:Hd; simpl; [|reflexivity].
  rewrite getIndex_with_shard, (shard_at_with_shard _ _ _ _ _ Hd), decide_True by reflexivity.
  simpl. now rewrite with_shard_with_shard, insert_insert_eq.
Qed.

(** X7: a second [Delete] of the same key reports false and changes
    nothing. *)
Theorem Delete_Delete (m : Map V Seed) (k : string) :
  ('(_, m1) ← Delete maphash_String k m; Delete maphash_String k m1) =
    ('(_, m1) ← Delete maphash_String k m; Some (false, m1)).
Proof.
  unfold Delete; cbv zeta.
  destruct (shard_at m (getIndex m k)) as [d|] eqn:Hd; simpl; [|reflexivity].
  destruct (d !! k) eqn:Hk; simpl.
  - rewrite getIndex_with_shard, (shard_at_with_shard _ _ _ _ _ Hd), decide_True by reflexivity.
    simpl. now rewrite lookup_delete_eq.
  - rewrite Hd. simpl. now rewrite Hk.
Qed.

(** X8: on a well-formed map, [Set(k, v)] of an absent key followed by
    [Delete(k)] reports true and gives back the original map. *)
Theorem Set_Delete (m : Map V Seed) (k : string) (v : V) :
  wf m -> find m k = None ->
  ('(_, m1) ← Set_ maphash_String k v m; Delete maphash_String k m1) = Some (true, m).
Proof.
  intros Hwf Hk. destruct (shard_at_routed maphash_String m k Hwf) as (d & Hd).
  rewrite (find_shard maphash_String _ _ _ Hd) in Hk.
  unfold Set_, Delete; cbv zeta. rewrite Hd. simpl.
  rewrite getIndex_with_shard, (shard_at_with_shard _ _ _ _ _ Hd), decide_True by reflexivity.
  simpl. rewrite lookup_insert_eq, with_shard_with_shard, delete_insert_id by exact Hk.
  now rewrite (with_shard_id _ _ _ Hd).
Qed.

(** X9: on a well-formed map, [Delete(k)] of a key holding [v] followed by
    [Set(k, v)] gives back the original map. *)
Theorem Delete_Set (m : Map V Seed) (k : string) (v : V) :
  wf m -> find m k = Some v ->
  ('(_, m1) ← Delete maphash_String k m; Set_ maphash_String k v m1) = Some (tt, m).
Proof.
  intros Hwf Hk. destruct (shard_at_routed maphash_String m k Hwf) as (d & Hd).
  rewrite (find_shard maphash_String _ _ _ Hd) in Hk.
  unfold Set_, Delete; cbv zeta. rewrite Hd. simpl. rewrite Hk. simpl.
  rewrite getIndex_with_shard, (shard_at_with_shard _ _ _ _ _ Hd), decide_True by reflexivity.
  simpl. rewrite with_shard_with_shard, insert_delete_id by exact Hk.
  now rewrite (with_shard_id _ _ _ Hd).
Qed.

(** X10: [Clear()] keeps the shard count and the seed and empties every
    shard: afterwards [Len()] is 0 and no key is found, so on a well-formed
    map [Get] reports every key absent. *)
Theorem Clear_spec (m : Map V Seed) :
  exists m', Clear m = Some (tt, m') /\
    ShardCount m' = Some (Z.of_nat (length (datas m)), m') /\ seed m' = seed m /\
    Len m' = Some (0, m') /\ (forall k, find m' k = None) /\
    (wf m -> forall k, Get zero maphash_String k m' = Some ((zero, false), m')).
Proof.
  assert (Hempty : Forall (fun d => d = ∅) (map (fun _ => ∅ : gmap string V) (datas m))).
  { apply Forall_forall. intros d Hd. apply list_elem_of_fmap in Hd as (? & -> & _).
    reflexivity. }
  assert (Hfind : forall k, find (mkMap (map (fun _ => ∅ : gmap string V) (datas m)) (seed m)) k = None).
  { intros k. unfold find, shard_at.
    destruct (_ <? 0); [reflexivity|].
    destruct (_ !! _) as [d|] eqn:Hd; [|reflexivity].
    apply list_lookup_fmap_Some in Hd as (? & -> & _). apply lookup_empty. }
  eexists. split; [reflexivity|].
  split; [unfold ShardCount; simpl; now rewrite length_map|].
  split; [reflexivity|].
  split; [rewrite Len_entries; unfold all_entries; simpl; now rewrite entries_empty_shards|].
  split; [exact Hfind|].
  intros Hwf k. rewrite Get_find, Hfind; [reflexivity|].
  unfold wf in *. simpl. now rewrite length_map.
Qed.

(** X11: on a well-formed map, the shard index of a key is its 64-bit hash
    modulo the shard count. *)
Theorem getIndex_mod (m : Map V Seed) (k : string) :
  wf m -> getIndex m k = maphash_String (seed m) k mod Z.of_nat (length (datas m)).
Proof.
  intros (p & Hlen & Hp).
  change (getIndex m k) with
    (to_int (Z.land (to_uint64 (maphash_String (seed m) k))
                    (to_uint64 (Z.of_nat (length (datas m)) - 1)))).
  rewrite Hlen.
  assert (Hpow : 2 ^ p <= 2 ^ 16) by (apply Z.pow_le_mono_r; lia).
  change (2 ^ 16) with 65536 in Hpow.
  assert (Hmask : to_uint64 (2 ^ p - 1) = Z.ones p).
  { unfold to_uint64. rewrite Z.ones_equiv, Z.mod_small; [lia|].
    split; [|cbn]; lia. }
  assert (Hu : to_uint64 (maphash_String (seed m) k) =
               Z.land (maphash_String (seed m) k) (Z.ones 64)).
  { unfold to_uint64. now rewrite Z.land_ones. }
  assert (H64 : Z.land (Z.ones 64) (Z.ones p) = Z.ones p).
  { rewrite Z.land_comm, Z.land_ones by lia. apply Z.mod_small.
    assert (0 < 2 ^ p) by (apply Z.pow_pos_nonneg; lia).
    assert (2 ^ p < 2 ^ 64) by (apply Z.pow_lt_mono_r; lia).
    rewrite Z.ones_equiv. lia. }
  rewrite Hmask, Hu, <- Z.land_assoc, H64, Z.land_ones by lia.
  assert (Hr : 0 <= maphash_String (seed m) k mod 2 ^ p < 2 ^ p)
    by (apply Z.mod_pos_bound; lia).
  unfold to_int. replace (_ <? 2 ^ 63) with true by (cbn in *; lia). reflexivity.
Qed.

End Counting.

(** X12: rounding a shard-count hint is idempotent (so passing a map's own
    shard count to [New] gives the same count) and monotone in the hint. *)
Theorem trueShards_idem_mono (n n' : Z) :
  trueShards (trueShards n) = trueShards n /\ (n <= n' -> trueShards n <= trueShards n').
Proof.
  destruct (trueShards_pow2 n) as (p & Hp & Hpb).
  destruct (trueShards_cases (trueShards n)) as (_ & _ & H3).
  split.
  - rewrite Hp in *. assert (2 ^ p <= 2 ^ 16) by (apply Z.pow_le_mono_r; lia).
    assert (0 < 2 ^ p) by (apply Z.pow_pos_nonneg; lia).
    rewrite H3 by (cbn in *; lia). now rewrite Z.log2_up_pow2 by lia.
  - intros Hle. clear H3 Hp Hpb p.
    destruct (trueShards_cases n) as (A1 & A2 & A3).
    destruct (trueShards_cases n') as (B1 & B2 & B3).
    destruct (trueShards_pow2 n') as (q & Hq & Hqb).
    destruct (Z_le_gt_dec n 0) as [Hn|Hn].
    { rewrite A1 by exact Hn. rewrite Hq. assert (0 < 2 ^ q) by (apply Z.pow_pos_nonneg; lia). lia. }
    destruct (Z_le_gt_dec n 65536) as [Hm|Hm]; [|rewrite A2, B2 by lia; lia].
    rewrite A3 by lia.
    destruct (Z_le_gt_dec n' 65536) as [Hm'|Hm'].
    + rewrite B3 by lia. apply Z.pow_le_mono_r; [lia|]. apply Z.log2_up_le_mono. lia.
    + rewrite B2 by lia. change 65536 with (2 ^ 16). apply Z.pow_le_mono_r; [lia|].
      rewrite <- (Z.log2_up_pow2 16) by lia. apply Z.log2_up_le_mono. lia.
Qed.

Section PruneShape.

Context {V : Type} {Seed : Type} {E : Type}.
Context (range_order : nat -> gmap string V -> list (string * V)).

Lemma prune_shard_sub (f : string -> V -> bool * option E) es d dn nn :
  (prune_shard f es d dn nn).1.1.1.1 ⊆ d.
Proof.
  revert d dn nn. induction es as [|[k v] es IH]; intros d dn nn; simpl; [reflexivity|].
  destruct (f k v) as [ok [e|]]; simpl; [reflexivity|].
  destruct ok.
  - specialize (IH (delete k d) (dn + 1) nn).
    destruct (prune_shard f es (delete k d) (dn + 1) nn) as [[[[d' ?] ?] ?] ?]; simpl in *.
    transitivity (delete k d); [exact IH|apply delete_subseteq].
  - specialize (IH d dn (nn + 1)).
    destruct (prune_shard f es d dn (nn + 1)) as [[[[d' ?] ?] ?] ?]; simpl in *. exact IH.
Qed.

Lemma prune_loop_sub (f : string -> V -> bool * option E) i ds dn nn :
  length (prune_loop range_order f i ds dn nn).1.1.1.1 = length ds /\
  forall j d', (prune_loop range_order f i ds dn nn).1.1.1.1 !! j = Some d' ->
    exists d, ds !! j = Some d /\ d' ⊆ d.
Proof.
  revert i dn nn. induction ds as [|d ds IH]; intros i dn nn; simpl.
  - split; [reflexivity|]. intros j d' H. discriminate.
  - pose proof (prune_shard_sub f (range_order i d) d dn nn) as Hsub.
    destruct (prune_shard f (range_order i d) d dn nn) as [[[[d0 dn0] nn0] [e|]] calls];
      simpl in *.
    + split; [reflexivity|]. intros [|j] d' Hj; simpl in Hj.
      * injection Hj as <-. eauto.
      * exists d'. split; [exact Hj|reflexivity].
    + destruct (IH (S i) dn0 nn0) as [Hlen Hs].
      destruct (prune_loop range_order f (S i) ds dn0 nn0) as [[[[ds1 ?] ?] ?] ?]; simpl in *.
      split; [now rewrite Hlen|]. intros [|j] d' Hj; simpl in Hj.
      * injection Hj as <-. eauto.
      * apply Hs. exact Hj.
Qed.

(** X13: whatever its callback returns, errors included, [Prune(f)] never
    panics, keeps the seed and the shard count (so a well-formed map stays
    well-formed), and never adds or changes an entry: each shard afterwards
    is a sub-dictionary of what it was. *)
Theorem Prune_only_deletes (m : Map V Seed) (f : string -> V -> bool * option E) :
  exists r m', Prune range_order f m = Some (r, m') /\
    seed m' = seed m /\ length (datas m') = length (datas m) /\ (wf m -> wf m') /\
    forall i d', datas m' !! i = Some d' -> exists d, datas m !! i = Some d /\ d' ⊆ d.
Proof.
  unfold Prune. pose proof (prune_loop_sub f 0 (datas m) 0 0) as [Hl Hs].
  destruct (prune_loop range_order f 0 (datas m) 0 0) as [[[[ds dn] nn] r] calls];
    simpl in *.
  eexists _, _. split; [reflexivity|]. simpl.
  split; [reflexivity|]. split; [exact Hl|]. split; [|exact Hs].
  unfold wf. simpl. now rewrite Hl.
Qed.

End PruneShape.

Section IterationCounts.

Context {V : Type} {Seed : Type} {E : Type}.
Context (range_order : nat -> gmap string V -> list (string * V)).
Hypothesis range_order_perm : forall i d, range_order i d ≡ₚ map_to_list d.

Lemma size_filter (P : string * V -> Prop) `{!forall kv, Decision (P kv)}
    (d : gmap string V) :
  size (filter P d) = length (filter P (map_to_list d)).
Proof.
  rewrite <- length_map_to_list, map_filter_alt.
  apply Permutation_length, map_to_list_to_map.
  eapply sublist_NoDup; [apply (NoDup_fst_map_to_list d)|].
  apply (fmap_sublist fst), sublist_filter.
Qed.

Lemma entries_filter (P : string * V -> Prop) `{!forall kv, Decision (P kv)}
    (ds : list (gmap string V)) :
  length (concat (map map_to_list (map (filter P) ds))) =
    length (filter P (concat (map map_to_list ds))).
Proof.
  induction ds as [|d ds IH]; simpl; [reflexivity|].
  rewrite filter_app, !length_app, IH, length_map_to_list, size_filter. reflexivity.
Qed.

Lemma length_filter_split (g : string * V -> bool) (l : list (string * V)) :
  (length (filter (fun kv => g kv = true) l) +
   length (filter (fun kv => g kv = false) l) = length l)%nat.
Proof.
  induction l as [|a l IH]; [reflexivity|]. rewrite !filter_cons.
  destruct (g a) eqn:Ha; repeat case_decide; simpl; try congruence; lia.
Qed.

(** X14: with a callback that never errs, the two counts [Prune(f)]
    returns add up to [Len()] before the call, which is also the number of
    calls made to [f], and the retained count is [Len()] after it. *)
Theorem Prune_counts (m : Map V Seed) (f : string -> V -> bool * option E) :
  (forall k v, snd (f k v) = None) ->
  exists dn nn calls m', Prune range_order f m = Some ((dn, nn, None, calls), m') /\
    Len m = Some (dn + nn, m) /\ Len m' = Some (nn, m') /\
    Z.of_nat (length calls) = dn + nn.
Proof.
  intros Hok. unfold Prune.
  rewrite (prune_loop_ok range_order range_order_perm f 0 (datas m) 0 0).
  2: { apply Forall_forall. intros [k v] _. unfold fails. simpl. now rewrite Hok. }
  eexists _, _, _, _. split; [reflexivity|].
  pose proof (visit_order_perm range_order range_order_perm 0 (datas m)) as Hp.
  pose proof (length_filter_split (deletes f) (visit_order range_order 0 (datas m))) as Hs.
  split; [|split].
  - rewrite Len_entries. do 3 f_equal. unfold all_entries.
    rewrite <- (Permutation_length Hp). lia.
  - rewrite Len_entries. do 3 f_equal. unfold all_entries. simpl.
    rewrite entries_filter. rewrite <- Hp. lia.
  - lia.
Qed.

(** X15: [Range(f)] with a callback that always returns true calls it once
    per entry: the calls are a permutation of the entries and their number
    is [Len()]. *)
Theorem Range_all (m : Map V Seed) (f : string -> V -> bool) :
  (forall k v, f k v = true) ->
  exists calls n, Range range_order f m = Some (calls, m) /\ Len m = Some (n, m) /\
    calls ≡ₚ all_entries m /\ Z.of_nat (length calls) = n.
Proof.
  intros Hf.
  destruct (range_shards_spec range_order f 0 (datas m))
    as (rest & Hv & [(_ & ->)|(pre & k & v & _ & _ & Hk)]).
  2: { rewrite Hf in Hk. discriminate. }
  rewrite app_nil_r in Hv.
  exists (range_shards range_order f 0 (datas m)), (Z.of_nat (length (all_entries m))).
  split; [reflexivity|]. split; [apply Len_entries|].
  rewrite <- Hv. split; [apply visit_order_perm; exact range_order_perm|].
  f_equal. apply Permutation_length. apply visit_order_perm. exact range_order_perm.
Qed.

End IterationCounts.

Section Routed.

Context {V : Type} {Seed : Type} (maphash_String : Seed -> string -> Z).

Local Abbreviation getIndex := (getIndex maphash_String).
Local Abbreviation find := (find maphash_String).
Local Abbreviation routed := (routed maphash_String).

Lemma elem_of_shards (ds : list (gmap string V)) k v :
  (k, v) ∈ concat (map map_to_list ds) <-> exists i d, ds !! i = Some d /\ d !! k = Some v.
Proof.
  induction ds as [|d ds IH]; simpl.
  - split; [intros H; inversion H|]. intros (i & d & Hi & _). discriminate.
  - rewrite elem_of_app, elem_of_map_to_list, IH. split.
    + intros [Hk|(i & d' & Hi & Hk)]; [exists 0%nat, d; auto|exists (S i), d'; auto].
    + intros ([|i] & d' & Hi & Hk); simpl in Hi; [injection Hi as ->; auto|eauto].
Qed.

Lemma NoDup_shards (g : string -> Z) (ds : list (gmap string V)) (i0 : nat) :
  (forall j d k v, ds !! j = Some d -> d !! k = Some v -> g k = Z.of_nat (i0 + j)) ->
  NoDup (concat (map map_to_list ds)).*1.
Proof.
  revert i0. induction ds as [|d ds IH]; intros i0 Hr; simpl; [constructor|].
  rewrite fmap_app. apply NoDup_app. split; [apply NoDup_fst_map_to_list|]. split.
  - intros k Hk1 Hk2.
    apply list_elem_of_fmap in Hk1 as ([k1 v1] & Heq1 & H1). simpl in Heq1; subst k1.
    apply list_elem_of_fmap in Hk2 as ([k2 v2] & Heq2 & H2). simpl in Heq2; subst k2.
    apply elem_of_map_to_list in H1. apply elem_of_shards in H2 as (j & d' & Hj & Hd').
    pose proof (Hr 0%nat d k v1 eq_refl H1). pose proof (Hr (S j) d' k v2 Hj Hd'). lia.
  - apply (IH (S i0)). intros j d' k v Hj Hd'.
    rewrite (Hr (S j) d' k v Hj Hd'). f_equal. lia.
Qed.

(** On a well-formed map whose entries sit in their routed shards, no key
    is in two shards and the entries are exactly what [find] sees. *)
Lemma routed_entries (m : Map V Seed) :
  wf m -> routed m ->
  NoDup (all_entries m).*1 /\ forall k v, (k, v) ∈ all_entries m <-> find m k = Some v.
Proof.
  intros Hwf Hr. split.
  - apply (NoDup_shards (getIndex m) (datas m) 0). intros j d k v Hj Hk.
    exact (Hr j d k v Hj Hk).
  - intros k v. unfold all_entries. rewrite elem_of_shards. split.
    + intros (i & d & Hi & Hk). pose proof (Hr i d k v Hi Hk) as Hg.
      change (find m k) with
        (match shard_at m (getIndex m k) with Some d => d !! k | None => None end).
      unfold shard_at. rewrite Hg.
      destruct (Z.ltb_spec (Z.of_nat i) 0); [lia|].
      rewrite Nat2Z.id, Hi. exact Hk.
    + intros Hf. destruct (shard_at_routed maphash_String m k Hwf) as (d & Hd).
      rewrite (find_shard maphash_String _ _ _ Hd) in Hf.
      apply shard_at_Some in Hd as [_ Hd]. eauto.
Qed.

Lemma routed_with_shard (m : Map V Seed) i d d' :
  routed m -> shard_at m i = Some d ->
  (forall k v, d' !! k = Some v -> getIndex m k = i) ->
  routed (with_shard m i d').
Proof.
  intros Hr Hd Hd'. apply shard_at_Some in Hd as [Hi Hd].
  intros j d0 k v Hj Hk. rewrite getIndex_with_shard.
  unfold with_shard in Hj; simpl in Hj.
  destruct (decide (j = Z.to_nat i)) as [->|Hne].
  - rewrite list_lookup_insert_eq in Hj by (apply lookup_lt_Some in Hd; exact Hd).
    injection Hj as <-. rewrite (Hd' k v Hk). lia.
  - rewrite list_lookup_insert_ne in Hj by congruence. exact (Hr j d0 k v Hj Hk).
Qed.

Lemma step_routed (o : op V) (m m' : Map V Seed) :
  wf m -> routed m -> step maphash_String o m = Some (tt, m') -> routed m'.
Proof.
  intros Hwf Hr Hs.
  assert (Hins : forall k v d, shard_at m (getIndex m k) = Some d ->
            routed (with_shard m (getIndex m k) (<[k:=v]> d))).
  { intros k v d Hd. apply (routed_with_shard _ _ d); [exact Hr|exact Hd|].
    intros k' v' Hk'. apply lookup_insert_Some in Hk' as [[<- _]|[_ Hk']]; [reflexivity|].
    apply shard_at_Some in Hd as [Hi Hd]. rewrite (Hr _ d k' v' Hd Hk'). lia. }
  assert (Hdel : forall k d, shard_at m (getIndex m k) = Some d ->
            routed (with_shard m (getIndex m k) (delete k d))).
  { intros k d Hd. apply (routed_with_shard _ _ d); [exact Hr|exact Hd|].
    intros k' v' Hk'. apply lookup_delete_Some in Hk' as [_ Hk'].
    apply shard_at_Some in Hd as [Hi Hd]. rewrite (Hr _ d k' v' Hd Hk'). lia. }
  destruct o as [k v|k v|k|k p|]; simpl in Hs.
  - unfold Set_ in Hs; cbv zeta in Hs.
    destruct (shard_at m (getIndex m k)) as [d|] eqn:Hd; simpl in Hs; [|discriminate].
    injection Hs as <-. now apply Hins.
  - unfold SetWithNotExist in Hs; cbv zeta in Hs.
    destruct (shard_at m (getIndex m k)) as [d|] eqn:Hd; simpl in Hs; [|discriminate].
    destruct (d !! k); simpl in Hs; injection Hs as <-; [exact Hr|now apply Hins].
  - unfold Delete in Hs; cbv zeta in Hs.
    destruct (shard_at m (getIndex m k)) as [d|] eqn:Hd; simpl in Hs; [|discriminate].
    destruct (d !! k); simpl in Hs; injection Hs as <-; [now apply Hdel|exact Hr].
  - unfold DeleteIf in Hs; cbv zeta in Hs.
    destruct (shard_at m (getIndex m k)) as [d|] eqn:Hd; simpl in Hs; [|discriminate].
    destruct (d !! k); [destruct (p v)|]; simpl in Hs; injection Hs as <-;
      [now apply Hdel|exact Hr|exact Hr].
  - injection Hs as <-. intros j d k v Hj Hk. simpl in Hj.
    apply list_lookup_fmap_Some in Hj as (? & -> & _).
    rewrite lookup_empty in Hk. discriminate.
Qed.

Lemma run_routed (os : list (op V)) (m m' : Map V Seed) :
  wf m -> routed m -> run maphash_String os m = Some (tt, m') -> wf m' /\ routed m'.
Proof.
  revert m. induction os as [|o os IH]; intros m Hwf Hr Hrun; simpl in Hrun.
  - injection Hrun as ->. auto.
  - destruct (step_spec maphash_String o m "" Hwf) as (m1 & Hs & Hw1 & _).
    rewrite Hs in Hrun. simpl in Hrun. apply (IH m1); [exact Hw1| |exact Hrun].
    exact (step_routed o m m1 Hwf Hr Hs).
Qed.

Lemma routed_New (s : Seed) (hint : list Z) : routed (@New V Seed s hint).
Proof.
  intros j d k v Hj Hk. unfold New in Hj; simpl in Hj.
  apply lookup_replicate in Hj as [-> _]. rewrite lookup_empty in Hk. discriminate.
Qed.

(** X16: after any sequence of [Set], [SetWithNotExist], [Delete],
    [DeleteIf] and [Clear] calls on a new map, no key is stored in two
    shards and the shards' entries are exactly the pairs a lookup of their
    key finds, so [Len()] counts the distinct keys present. *)
Theorem New_run_entries (s : Seed) (hint : list Z) (os : list (op V)) :
  exists m, run maphash_String os (New s hint) = Some (tt, m) /\
    NoDup (all_entries m).*1 /\
    (forall k v, (k, v) ∈ all_entries m <-> find m k = Some v) /\
    Len m = Some (Z.of_nat (length (all_entries m)), m).
Proof.
  destruct (run_wf maphash_String os (New s hint) (New_wf s hint)) as (m & Hrun & _).
  destruct (run_routed os _ m (New_wf s hint) (routed_New s hint) Hrun) as [Hwf Hr].
  destruct (routed_entries m Hwf Hr) as [Hnd Hin].
  exists m. split; [exact Hrun|]. split; [exact Hnd|]. split; [exact Hin|].
  apply Len_entries.
Qed.

End Routed.

Section OldVersion.

Context {V : Type} (zero : V) {Seed : Type} (maphash_String : Seed -> string -> Z).

Local Abbreviation getIndex := (getIndex maphash_String).
Local Abbreviation find := (find maphash_String).

Lemma Old_getIndex (m : Map V Seed) k : Old.getIndex maphash_String m k = getIndex m k.
Proof. reflexivity. Qed.

Lemma find_empty_shards (m : Map V Seed) k :
  Forall (fun d => d = ∅) (datas m) -> find m k = None.
Proof.
  intros Hall.
  change (find m k) with
    (match shard_at m (getIndex m k) with Some d => d !! k | None => None end).
  unfold shard_at. destruct (_ <? 0); [reflexivity|].
  destruct (datas m !! _) as [d|] eqn:Hd; [|reflexivity].
  rewrite Forall_lookup in Hall. rewrite (Hall _ _ Hd). apply lookup_empty.
Qed.

Lemma Old_Get_find (m : Map V Seed) k dflts :
  wf m ->
  Old.Get zero maphash_String k dflts m =
    Some (match find m k with
          | Some v => (v, true)
          | None => (match dflts with [] => zero | dv :: _ => dv end, false)
          end, m).
Proof.
  intros Hwf. destruct (shard_at_routed maphash_String m k Hwf) as (d & Hd).
  unfold Old.Get; cbv zeta. rewrite Old_getIndex, Hd, (find_shard maphash_String _ _ _ Hd).
  simpl. destruct (d !! k); [reflexivity|]. destruct dflts; reflexivity.
Qed.

(** X17: the earlier version's [New] uses 32 shards without a hint and
    the same rounding as the current one with a hint; its new maps are
    empty: [Len()] is 0 and [Get] without a default reports every key
    absent with the zero value. *)
Theorem Old_New_default (s : Seed) (hint : list Z) (k : string) :
  ShardCount (@Old.New V Seed s []) = Some (32, Old.New s []) /\
  (forall n, @Old.New V Seed s (n :: hint) = New s (n :: hint)) /\
  Len (@Old.New V Seed s hint) = Some (0, Old.New s hint) /\
  Old.Get zero maphash_String k [] (@Old.New V Seed s hint) = Some ((zero, false), Old.New s hint).
Proof.
  assert (Hempty : Forall (fun d => d = ∅) (datas (@Old.New V Seed s hint))).
  { unfold Old.New; simpl. apply Forall_replicate. reflexivity. }
  assert (Hwf : wf (@Old.New V Seed s hint)).
  { destruct hint as [|n hint]; [|exact (New_wf s (n :: hint))].
    exists 5. split; [reflexivity|lia]. }
  split; [reflexivity|]. split; [reflexivity|]. split.
  - rewrite Len_entries. unfold all_entries. now rewrite entries_empty_shards.
  - rewrite Old_Get_find by exact Hwf. now rewrite find_empty_shards.
Qed.

(** X18: on a well-formed map, the earlier version's [Set(k, v)] without
    the flag, or with it false, stores [v] like the current [Set] and
    returns [v]; with the flag true it leaves the map as it is and returns
    the stored value when [k] is present, and otherwise stores [v] and
    returns it. *)
Theorem Old_Set_flags (m : Map V Seed) (k : string) (v : V) (flags : list bool) :
  wf m ->
  exists m', Set_ maphash_String k v m = Some (tt, m') /\
    Old.Set_ maphash_String k v flags m =
      match flags with
      | true :: _ => Some (match find m k with Some v0 => (v0, m) | None => (v, m') end)
      | _ => Some (v, m')
      end.
Proof.
  intros Hwf. destruct (shard_at_routed maphash_String m k Hwf) as (d & Hd).
  unfold Set_, Old.Set_; cbv zeta.
  change (Old.getIndex maphash_String m k) with (getIndex m k). rewrite Hd. simpl.
  eexists. split; [reflexivity|]. rewrite (find_shard maphash_String _ _ _ Hd).
  destruct flags as [|[|] flags]; simpl; [reflexivity| |reflexivity].
  destruct (d !! k); reflexivity.
Qed.

(** X19: on a well-formed map, what the earlier version's [Set(k, v, ...)]
    returns is what a following [Get(k, ...)] returns, reported present,
    whatever the flag and the default. *)
Theorem Old_Set_Get (m m' : Map V Seed) (k : string) (v : V) (flags : list bool)
    (dflts : list V) (r : V) :
  wf m -> Old.Set_ maphash_String k v flags m = Some (r, m') ->
  Old.Get zero maphash_String k dflts m' = Some ((r, true), m').
Proof.
  intros Hwf Hs. destruct (shard_at_routed maphash_String m k Hwf) as (d & Hd).
  assert (Hins : Old.Get zero maphash_String k dflts
                   (with_shard m (getIndex m k) (<[k:=v]> d)) =
                 Some ((v, true), with_shard m (getIndex m k) (<[k:=v]> d))).
  { rewrite Old_Get_find by now apply wf_with_shard.
    rewrite (find_with_shard maphash_String _ _ _ _ _ Hd), decide_True by reflexivity.
    now rewrite lookup_insert_eq. }
  unfold Old.Set_ in Hs; cbv zeta in Hs.
  change (Old.getIndex maphash_String m k) with (getIndex m k) in Hs. rewrite Hd in Hs. simpl in Hs.
  destruct flags as [|[|] flags]; simpl in Hs.
  - injection Hs as <- <-. exact Hins.
  - destruct (d !! k) eqn:Hk; simpl in Hs; injection Hs as <- <-; [|exact Hins].
    rewrite Old_Get_find by exact Hwf. rewrite (find_shard maphash_String _ _ _ Hd), Hk.
    reflexivity.
  - injection Hs as <- <-. exact Hins.
Qed.

(** X20: the earlier version's [GetMaps(index)] never panics: an index
    outside [0, ShardCount()) gives nil, and an index inside gives that
    shard's entries. *)
Theorem Old_GetMaps_bounds (m : Map V Seed) (index : Z) :
  ((index < 0 \/ Z.of_nat (length (datas m)) <= index) -> Old.GetMaps index m = Some (None, m)) /\
  (0 <= index < Z.of_nat (length (datas m)) ->
     exists d, datas m !! Z.to_nat index = Some d /\ Old.GetMaps index m = Some (Some d, m)).
Proof.
  unfold Old.GetMaps. split.
  - intros Hout. destruct (Z.ltb_spec index 0); [reflexivity|].
    destruct (Z.leb_spec (Z.of_nat (length (datas m))) index); [reflexivity|]. lia.
  - intros Hin. destruct (Z.ltb_spec index 0); [lia|].
    destruct (Z.leb_spec (Z.of_nat (length (datas m))) index); [lia|]. simpl.
    unfold shard_at. destruct (Z.ltb_spec index 0); [lia|].
    destruct (lookup_lt_is_Some_2 (datas m) (Z.to_nat index)) as [d Hd]; [lia|].
    rewrite Hd. eauto.
Qed.

Lemma fold_union_none (ds : list (gmap string V)) acc k :
  Forall (fun d => d !! k = None) ds ->
  fold_left (fun re d => d ∪ re) ds acc !! k = acc !! k.
Proof.
  revert acc. induction ds as [|d ds IH]; intros acc Hall; simpl; [reflexivity|].
  apply Forall_cons in Hall as [Hd Hall]. rewrite IH by exact Hall.
  rewrite lookup_union, Hd. destruct (acc !! k); reflexivity.
Qed.

Lemma fold_union_one (ds : list (gmap string V)) acc k j d :
  ds !! j = Some d ->
  (forall j' d', j' <> j -> ds !! j' = Some d' -> d' !! k = None) ->
  fold_left (fun re d => d ∪ re) ds acc !! k = (d ∪ acc) !! k.
Proof.
  revert acc j. induction ds as [|d0 ds IH]; intros acc [|j] Hj Hother;
    simpl in Hj; try discriminate; simpl.
  - injection Hj as ->. apply fold_union_none. apply Forall_lookup.
    intros j' d' Hj'. apply (Hother (S j') d'); [lia|exact Hj'].
  - rewrite (IH _ j Hj).
    + rewrite !lookup_union, (Hother 0%nat d0) by (lia || reflexivity).
      destruct (d !! k), (acc !! k); reflexivity.
    + intros j' d' Hne Hj'. apply (Hother (S j') d'); [lia|exact Hj'].
Qed.

(** X21: on a well-formed map whose entries sit in their routed shards,
    the earlier version's [GetAllMaps()] returns one dictionary in which
    every key has the value a lookup finds, with [Len()] entries. *)
Theorem Old_GetAllMaps_spec (m : Map V Seed) :
  wf m -> routed maphash_String m ->
  exists g, Old.GetAllMaps m = Some (g, m) /\ (forall k, g !! k = find m k) /\
    Len m = Some (Z.of_nat (size g), m).
Proof.
  intros Hwf Hr.
  assert (Hg : forall k, fold_left (fun re d => d ∪ re) (datas m) ∅ !! k = find m k).
  { intros k. destruct (shard_at_routed maphash_String m k Hwf) as (d & Hd).
    rewrite (find_shard maphash_String _ _ _ Hd).
    apply shard_at_Some in Hd as [Hi Hd'].
    rewrite (fold_union_one _ _ k _ d Hd').
    - rewrite lookup_union, lookup_empty. destruct (d !! k); reflexivity.
    - intros j' d' Hne Hj'. destruct (d' !! k) as [v|] eqn:Hk; [|reflexivity].
      exfalso. apply Hne. pose proof (Hr j' d' k v Hj' Hk). lia. }
  eexists. split; [reflexivity|]. split; [exact Hg|].
  rewrite Len_entries. do 3 f_equal.
  destruct (routed_entries maphash_String m Hwf Hr) as [Hnd Hin].
  rewrite <- length_map_to_list. apply Permutation_length.
  apply NoDup_Permutation.
  - eapply NoDup_fmap_1. exact Hnd.
  - apply NoDup_map_to_list.
  - intros [k v]. rewrite Hin, elem_of_map_to_list, Hg. reflexivity.
Qed.

End OldVersion.

(** * Witnesses: the claims' theorems at concrete inputs *)

Example demo_map_entries :
  all_entries demo_map = [("a"%string, 1); ("b"%string, 5); ("c"%string, 10); ("d"%string, 15)].
Proof. vm_compute. reflexivity. Qed.

Lemma demo_order_perm : forall i d, demo_order i d ≡ₚ map_to_list d.
Proof. intros i d. reflexivity. Qed.

Lemma demo_map_wf : wf demo_map.
Proof. exists 6. split; [vm_compute; reflexivity | lia]. Qed.

Lemma Set_then_Get_witness :
  forallb (fun o => negb (mutates "a"%string o)) [OSet "b"%string 2; ODelete "c"%string] = true /\
  exists m, run demo_hash ([OSet "c"%string 7] ++ OSet "a"%string 1 :: [OSet "b"%string 2; ODelete "c"%string])
              (New tt [100]) = Some (tt, m) /\
            Get 0 demo_hash "a"%string m = Some ((1, true), m).
Proof.
  assert (H : forallb (fun o => negb (mutates "a"%string o))
                [OSet (V:=Z) "b"%string 2; ODelete "c"%string] = true) by reflexivity.
  split; [exact H|].
  exact (Set_then_Get 0 demo_hash tt [100] [OSet "c"%string 7] _ "a"%string 1 H).
Defined.

Lemma SetWithNotExist_spec_witness :
  wf demo_map /\
  (forall old, find demo_hash demo_map "e"%string = Some old ->
     SetWithNotExist demo_hash "e"%string 3 demo_map = Some ((old, false), demo_map)) /\
  (find demo_hash demo_map "e"%string = None ->
     exists m', SetWithNotExist demo_hash "e"%string 3 demo_map = Some ((3, true), m') /\
       Set_ demo_hash "e"%string 3 demo_map = Some (tt, m') /\
       find demo_hash m' "e"%string = Some 3) /\
  (exists r1 b1 m1, SetWithNotExist demo_hash "e"%string 1 demo_map = Some ((r1, b1), m1) /\
     (find demo_hash demo_map "e"%string = None -> r1 = 1 /\ b1 = true) /\
     SetWithNotExist demo_hash "e"%string 2 m1 = Some ((r1, false), m1) /\
     Get 0 demo_hash "e"%string m1 = Some ((r1, true), m1)).
Proof.
  split; [exists 6; split; [vm_compute; reflexivity | lia]|].
  apply (SetWithNotExist_spec 0 demo_hash demo_map "e"%string 3 1 2).
  exists 6. split; [vm_compute; reflexivity | lia].
Defined.

Lemma DeleteIf_spec_witness :
  wf demo_map /\
  exists r m', DeleteIf demo_hash "b"%string (fun v => v <? 10) demo_map = Some (r, m') /\
    (r = true <-> exists v, find demo_hash demo_map "b"%string = Some v /\ (v <? 10) = true) /\
    (r = false -> m' = demo_map) /\
    (r = true -> find demo_hash m' "b"%string = None /\
       forall k', k' <> "b"%string -> find demo_hash m' k' = find demo_hash demo_map k').
Proof.
  split; [exists 6; split; [vm_compute; reflexivity | lia]|].
  apply (DeleteIf_spec demo_hash demo_map "b"%string (fun v => v <? 10)).
  exists 6. split; [vm_compute; reflexivity | lia].
Defined.

Lemma Delete_spec_witness :
  wf demo_map /\
  (find demo_hash demo_map "z"%string = None ->
     exists m', Delete demo_hash "z"%string demo_map = Some (false, m') /\ m' = demo_map /\
       fst <$> Len m' = fst <$> Len demo_map) /\
  (forall v, find demo_hash demo_map "z"%string = Some v ->
     exists m', Delete demo_hash "z"%string demo_map = Some (true, m') /\
       find demo_hash m' "z"%string = None /\
       forall k', k' <> "z"%string -> find demo_hash m' k' = find demo_hash demo_map k').
Proof.
  split; [exists 6; split; [vm_compute; reflexivity | lia]|].
  apply (Delete_spec demo_hash demo_map "z"%string).
  exists 6. split; [vm_compute; reflexivity | lia].
Defined.

Lemma GetWithDefault_spec_witness :
  wf demo_map /\
  GetWithDefault demo_hash "z"%string 42 demo_map =
    Some (match find demo_hash demo_map "z"%string with
          | Some v => (v, true) | None => (42, false) end, demo_map) /\
  (find demo_hash demo_map "z"%string = None ->
     GetWithDefault demo_hash "z"%string 42 demo_map = Some ((42, false), demo_map) /\
     Get 0 demo_hash "z"%string demo_map = Some ((0, false), demo_map)).
Proof.
  split; [exists 6; split; [vm_compute; reflexivity | lia]|].
  apply (GetWithDefault_spec 0 demo_hash demo_map "z"%string 42).
  exists 6. split; [vm_compute; reflexivity | lia].
Defined.

Lemma Range_spec_witness :
  exists calls, Range demo_order (fun _ v => v <? 10) demo_map = Some (calls, demo_map) /\
    visit_order demo_order 0 (datas demo_map) ≡ₚ all_entries demo_map /\
    exists rest, visit_order demo_order 0 (datas demo_map) = calls ++ rest /\
      ((Forall (fun kv : string * Z => (kv.2 <? 10) = true) calls /\ rest = []) \/
       (exists pre k v, calls = pre ++ [(k, v)] /\
          Forall (fun kv : string * Z => (kv.2 <? 10) = true) pre /\ (v <? 10) = false)).
Proof.
  exact (Range_spec demo_order demo_order_perm demo_map (fun _ v => v <? 10)).
Defined.

Lemma Prune_error_witness :
  exists m', Prune demo_order below10_fail_c demo_map =
    Some ((2, 0, Some "boom"%string, [("a"%string, 1); ("b"%string, 5); ("c"%string, 10)]), m') /\
    all_entries m' = [("c"%string, 10); ("d"%string, 15)].
Proof.
  assert (H1 : datas demo_map !! 35%nat = Some {[ "c"%string := 10 ]})
    by (vm_compute; reflexivity).
  assert (H2 : demo_order 35 {[ "c"%string := 10 ]} = [] ++ ("c"%string, 10) :: [])
    by (vm_compute; reflexivity).
  assert (H3 : below10_fail_c "c"%string 10 = (false, Some "boom"%string)) by reflexivity.
  assert (H4 : Forall (fun kv => fails below10_fail_c kv = false)
                 (visit_order demo_order 0 (take 35 (datas demo_map)) ++ []))
    by (vm_compute; repeat constructor).
  eexists.
  rewrite (Prune_error demo_order demo_order_perm demo_map below10_fail_c 35
             {[ "c"%string := 10 ]} [] "c"%string 10 false "boom"%string [] H1 H2 H3 H4).
  split; [reflexivity | vm_compute; reflexivity].
Defined.

(** The spec's example: pruning the values below 10 from {a:1, b:5, c:10,
    d:15} deletes two entries, keeps two, and leaves {c:10, d:15}. *)
Lemma Prune_no_error_witness :
  exists m', Prune demo_order below10 demo_map =
    Some ((2, 2, None, all_entries demo_map), m') /\
    all_entries m' = [("c"%string, 10); ("d"%string, 15)].
Proof.
  assert (H : forall k v, snd (below10 k v) = None) by reflexivity.
  eexists.
  rewrite (Prune_no_error demo_order demo_order_perm demo_map below10 H).
  split; [vm_compute; reflexivity | vm_compute; reflexivity].
Defined.

(** * Witnesses of the further properties *)

Lemma demo_map_run :
  run demo_hash [OSet "a"%string 1; OSet "b"%string 5; OSet "c"%string 10; OSet "d"%string 15]
    (New tt []) = Some (tt, demo_map).
Proof. vm_compute. reflexivity. Qed.

Lemma demo_map_routed : routed demo_hash demo_map.
Proof.
  exact (proj2 (run_routed demo_hash _ (New tt []) demo_map (New_wf tt [])
                  (routed_New demo_hash tt []) demo_map_run)).
Qed.

Lemma Set_Len_witness :
  wf demo_map /\ Len demo_map = Some (4, demo_map) /\
  exists m', Set_ demo_hash "e"%string 20 demo_map = Some (tt, m') /\
    Len m' = Some (4 + match find demo_hash demo_map "e"%string with Some _ => 0 | None => 1 end, m').
Proof.
  assert (Hl : Len demo_map = Some (4, demo_map)) by (vm_compute; reflexivity).
  split; [exact demo_map_wf|]. split; [exact Hl|].
  exact (Set_Len demo_hash demo_map "e"%string 20 4 demo_map_wf Hl).
Defined.

Lemma Delete_Len_witness :
  wf demo_map /\ Len demo_map = Some (4, demo_map) /\
  (exists b m', Delete demo_hash "a"%string demo_map = Some (b, m') /\
     (b = true <-> is_Some (find demo_hash demo_map "a"%string)) /\
     Len m' = Some (if b then 4 - 1 else 4, m')) /\
  (exists b m', DeleteIf demo_hash "a"%string (fun v => v <? 10) demo_map = Some (b, m') /\
     (b = true <-> exists v, find demo_hash demo_map "a"%string = Some v /\ (v <? 10) = true) /\
     Len m' = Some (if b then 4 - 1 else 4, m')).
Proof.
  assert (Hl : Len demo_map = Some (4, demo_map)) by (vm_compute; reflexivity).
  split; [exact demo_map_wf|]. split; [exact Hl|].
  exact (Delete_Len demo_hash demo_map "a"%string (fun v => v <? 10) 4 demo_map_wf Hl).
Defined.

Lemma New_Sets_Len_witness :
  NoDup [("x"%string, 1); ("y"%string, 2)].*1 /\
  exists m', run demo_hash (map (fun kv => OSet kv.1 kv.2) [("x"%string, 1); ("y"%string, 2)])
               (New tt []) = Some (tt, m') /\
    Len m' = Some (Z.of_nat (length [("x"%string, 1); ("y"%string, 2)]), m').
Proof.
  assert (Hnd : NoDup [("x"%string, 1); ("y"%string, 2)].*1)
    by (apply (bool_decide_unpack _); vm_compute; reflexivity).
  split; [exact Hnd|].
  exact (New_Sets_Len demo_hash tt [] [("x"%string, 1); ("y"%string, 2)] Hnd).
Defined.

Lemma Set_Delete_witness :
  wf demo_map /\ find demo_hash demo_map "e"%string = None /\
  ('(_, m1) ← Set_ demo_hash "e"%string 20 demo_map; Delete demo_hash "e"%string m1) =
    Some (true, demo_map).
Proof.
  assert (Hf : find demo_hash demo_map "e"%string = None) by (vm_compute; reflexivity).
  split; [exact demo_map_wf|]. split; [exact Hf|].
  exact (Set_Delete demo_hash demo_map "e"%string 20 demo_map_wf Hf).
Defined.

Lemma Delete_Set_witness :
  wf demo_map /\ find demo_hash demo_map "a"%string = Some 1 /\
  ('(_, m1) ← Delete demo_hash "a"%string demo_map; Set_ demo_hash "a"%string 1 m1) =
    Some (tt, demo_map).
Proof.
  assert (Hf : find demo_hash demo_map "a"%string = Some 1) by (vm_compute; reflexivity).
  split; [exact demo_map_wf|]. split; [exact Hf|].
  exact (Delete_Set demo_hash demo_map "a"%string 1 demo_map_wf Hf).
Defined.

Lemma getIndex_mod_witness :
  wf demo_map /\
  getIndex demo_hash demo_map "a"%string =
    demo_hash (seed demo_map) "a"%string mod Z.of_nat (length (datas demo_map)).
Proof.
  split; [exact demo_map_wf|].
  exact (getIndex_mod demo_hash demo_map "a"%string demo_map_wf).
Defined.

Lemma Prune_counts_witness :
  (forall i d, demo_order i d ≡ₚ map_to_list d) /\
  (forall k v, snd (below10 k v) = None) /\
  exists dn nn calls m', Prune demo_order below10 demo_map = Some ((dn, nn, None, calls), m') /\
    Len demo_map = Some (dn + nn, demo_map) /\ Len m' = Some (nn, m') /\
    Z.of_nat (length calls) = dn + nn.
Proof.
  assert (Hok : forall k v, snd (below10 k v) = None) by reflexivity.
  split; [exact demo_order_perm|]. split; [exact Hok|].
  exact (Prune_counts demo_order demo_order_perm demo_map below10 Hok).
Defined.

Lemma Range_all_witness :
  (forall i d, demo_order i d ≡ₚ map_to_list d) /\
  (forall (k : string) (v : Z), (fun _ _ => true) k v = true) /\
  exists calls n, Range demo_order (fun _ _ => true) demo_map = Some (calls, demo_map) /\
    Len demo_map = Some (n, demo_map) /\
    calls ≡ₚ all_entries demo_map /\ Z.of_nat (length calls) = n.
Proof.
  assert (Hf : forall (k : string) (v : Z), (fun _ _ => true) k v = true) by reflexivity.
  split; [exact demo_order_perm|]. split; [exact Hf|].
  exact (Range_all demo_order demo_order_perm demo_map (fun _ _ => true) Hf).
Defined.

Lemma Old_Set_flags_witness :
  wf demo_map /\
  exists m', Set_ demo_hash "a"%string 7 demo_map = Some (tt, m') /\
    Old.Set_ demo_hash "a"%string 7 [true] demo_map =
      Some (match find demo_hash demo_map "a"%string with
            | Some v0 => (v0, demo_map)
            | None => (7, m')
            end).
Proof.
  split; [exact demo_map_wf|].
  exact (Old_Set_flags demo_hash demo_map "a"%string 7 [true] demo_map_wf).
Defined.

Lemma Old_Set_Get_witness :
  wf demo_map /\ Old.Set_ demo_hash "a"%string 7 [true] demo_map = Some (1, demo_map) /\
  Old.Get 0 demo_hash "a"%string [] demo_map = Some ((1, true), demo_map).
Proof.
  assert (Hs : Old.Set_ demo_hash "a"%string 7 [true] demo_map = Some (1, demo_map))
    by (vm_compute; reflexivity).
  split; [exact demo_map_wf|]. split; [exact Hs|].
  exact (Old_Set_Get 0 demo_hash demo_map demo_map "a"%string 7 [true] [] 1 demo_map_wf Hs).
Defined.

Lemma Old_GetAllMaps_spec_witness :
  wf demo_map /\ routed demo_hash demo_map /\
  exists g, Old.GetAllMaps demo_map = Some (g, demo_map) /\
    (forall k, g !! k = find demo_hash demo_map k) /\
    Len demo_map = Some (Z.of_nat (size g), demo_map).
Proof.
  split; [exact demo_map_wf|]. split; [exact demo_map_routed|].
  exact (Old_GetAllMaps_spec demo_hash demo_map demo_map_wf demo_map_routed).
Defined.
